(** * The ibv code generator (tools/ibv_code_generator/generate-code.py)

    A shallow embedding of the prototype parser and of the text emitters of
    the generator, with Python's exceptions made explicit, followed by the
    properties of the parser, the type classifier, the port tables and the
    emitters. *)

From Stdlib Require Import Bool Arith ZArith List Ascii String Lia Sorted.
Import ListNotations.

Open Scope list_scope.
Open Scope string_scope.

(** ** Python values and exceptions *)

(** The exceptions the generator can raise. *)
Inductive exn : Set :=
| NameError (name : string)
| IndexError
| TypeError
| IOError (path : string).

Inductive result (A : Type) : Type :=
| Ok (a : A)
| Raise (e : exn).

Arguments Ok {A} a.
Arguments Raise {A} e.

Definition bind {A B : Type} (m : result A) (k : A -> result B) : result B :=
  match m with
  | Ok a => k a
  | Raise e => Raise e
  end.

Notation "x <- m ;; k" := (bind m (fun x => k))
  (at level 61, m at next level, right associativity).

(** A list comprehension whose element expression may raise. *)
Fixpoint mapM {A B : Type} (f : A -> result B) (l : list A) : result (list B) :=
  match l with
  | [] => Ok []
  | x :: xs => y <- f x ;; ys <- mapM f xs ;; Ok (y :: ys)
  end.

(** A [for] loop that threads an accumulator and whose body may raise. *)
Fixpoint foldM {A S : Type} (body : S -> A -> result S) (l : list A) (s : S)
  : result S :=
  match l with
  | [] => Ok s
  | x :: xs => s' <- body s x ;; foldM body xs s'
  end.

(** Characters the templates need and a literal cannot hold. *)
Definition LF : string := String (ascii_of_nat 10) EmptyString.
Definition TAB : string := String (ascii_of_nat 9) EmptyString.
Definition DQ : string := String (ascii_of_nat 34) EmptyString.

(** [l[i]] with Python's negative indices; out of range raises. *)
Definition getitem {A : Type} (l : list A) (i : Z) : result A :=
  let n := Z.of_nat (List.length l) in
  let j := if (i <? 0)%Z then (i + n)%Z else i in
  if ((j <? 0) || (n <=? j))%Z then Raise IndexError
  else match nth_error l (Z.to_nat j) with
       | Some x => Ok x
       | None => Raise IndexError
       end.

(** [l[:k]] with Python's negative bound; a slice never raises. *)
Definition slice_to {A : Type} (l : list A) (k : Z) : list A :=
  let n := Z.of_nat (List.length l) in
  let stop := if (k <? 0)%Z then Z.max 0 (k + n) else k in
  firstn (Z.to_nat stop) l.

(** [l or []]. *)
Definition or_empty {A : Type} (l : list A) : list A :=
  match l with
  | [] => []
  | _ :: _ => l
  end.

(** [s.split(sep)] for a one-character separator: one piece more than there
    are separators, empty pieces kept. *)
Fixpoint str_split (sep : ascii) (s : string) : list string :=
  match s with
  | EmptyString => [EmptyString]
  | String c rest =>
      if Ascii.eqb c sep then EmptyString :: str_split sep rest
      else match str_split sep rest with
           | [] => [String c EmptyString]
           | w :: ws => String c w :: ws
           end
  end.

(** [sep.join(l)]. *)
Fixpoint str_join (sep : string) (l : list string) : string :=
  match l with
  | [] => EmptyString
  | [x] => x
  | x :: xs => x ++ sep ++ str_join sep xs
  end.

(** [s.upper()] on ASCII text. *)
Definition upper_ascii (c : ascii) : ascii :=
  let n := nat_of_ascii c in
  if (97 <=? n)%nat && (n <=? 122)%nat then ascii_of_nat (n - 32) else c.

Fixpoint str_upper (s : string) : string :=
  match s with
  | EmptyString => EmptyString
  | String c rest => String (upper_ascii c) (str_upper rest)
  end.

(** [x in l] on a list of strings. *)
Definition str_in (x : string) (l : list string) : bool :=
  existsb (String.eqb x) l.

(** [format(num, "X")]: upper-case hexadecimal, no prefix, a minus sign for
    a negative number. *)
Definition hex_digit (d : N) : ascii :=
  if (d <? 10)%N then ascii_of_N (48 + d) else ascii_of_N (55 + d).

Fixpoint hex_loop (fuel : nat) (n : N) (acc : string) : string :=
  match fuel with
  | O => acc
  | S fuel' =>
      let acc' := String (hex_digit (n mod 16)) acc in
      if (n / 16 =? 0)%N then acc' else hex_loop fuel' (n / 16) acc'
  end.

Definition hex_of_N (n : N) : string :=
  hex_loop (S (N.to_nat (N.log2 n))) n EmptyString.

Definition format_X (num : Z) : string :=
  if (num <? 0)%Z then "-" ++ hex_of_N (Z.abs_N num) else hex_of_N (Z.to_N num).

(** ** Module-level names *)

Definition SRC_PATH : string := "function-prototypes.txt".
Definition KERNEL_GEN_PATH : string := "GEN-kernel.c".
Definition KERNEL_HEADER_GEN_PATH : string := "GEN-kernel-header.h".
Definition UHYVE_CASES_GEN_PATH : string := "GEN-tools-uhyve.c".
Definition UHYVE_IBV_HEADER_GEN_PATH : string := "GEN-tools-uhyve-ibv-ports.h".
Definition INCLUDE_STDDEF_GEN_PATH : string := "GEN-include-hermit-stddef.h".
Definition UHYVE_HOST_FCNS_GEN_PATH : string := "GEN-tools-uhyve-ibv.c".

(** Starting number of the sequence used for IBV ports. *)
Definition PORT_NUMBER_START : Z := 0x610.

(** Every name bound at module level, in the order of their binding. A bare
    name inside a method body is looked up here (the builtins hold none of
    the names the generator uses this way), never among the methods of the
    class. *)
Definition module_globals : list string :=
  [ "print_function"; "generate_struct_conversions";
    "SRC_PATH"; "KERNEL_GEN_PATH"; "KERNEL_HEADER_GEN_PATH";
    "UHYVE_CASES_GEN_PATH"; "UHYVE_IBV_HEADER_GEN_PATH";
    "INCLUDE_STDDEF_GEN_PATH"; "UHYVE_HOST_FCNS_GEN_PATH";
    "PORT_NUMBER_START"; "TABS"; "NEWLINES";
    "Type"; "FunctionParameter"; "FunctionPrototype";
    "generate_pretty_comment"; "generate_kernel_header_declarations";
    "generate_kernel_function"; "generate_uhyve_cases";
    "generate_uhyve_function"; "generate_port_enum"; "generate_port_macros" ].

(** A call [name()] of a bare name with no argument. An unbound name raises
    NameError; the module-level objects are strings, numbers, lists, and
    classes and functions that all want an argument, so that calling one of
    them this way raises TypeError. *)
Definition call_global0 (name : string) : result bool :=
  if str_in name module_globals then Raise TypeError
  else Raise (NameError name).

(** ** class Type *)

Module Type_.

Record t : Set := mk {
  type_string : string;
  type_components : list string
}.

Definition init (text : string) : t :=
  let ts := text in
  mk ts (str_split " " ts).

Definition is_struct (self : t) : result bool :=
  c <- getitem (type_components self) 0 ;;
  Ok (String.eqb c "struct").

Definition get_struct_name (self : t) : result string :=
  let name := EmptyString in
  b <- call_global0 "is_struct" ;;
  if b : bool
  then (name' <- getitem (type_components self) 1 ;; Ok name')
  else Ok name.

Definition is_pointer (self : t) : result bool :=
  c <- getitem (type_components self) (-1) ;;
  Ok (String.eqb c "*").

Definition is_char_arr (self : t) : result bool :=
  p <- is_pointer self ;;
  if p : bool then Ok (str_in "char" (type_components self)) else Ok false.

Definition is_pointer_pointer (self : t) : result bool :=
  c <- getitem (type_components self) (-1) ;;
  Ok (String.eqb c "**").

Definition is_void (self : t) : bool :=
  String.eqb (type_string self) "void".

End Type_.

(** ** class FunctionParameter *)

Module FunctionParameter.

Record t : Set := mk {
  type : Type_.t;
  name : string
}.

Definition init (text : string) : result t :=
  let components := str_split " " text in
  let type_string := str_join " " (slice_to components (-1)) in
  let ty := Type_.init type_string in
  nm <- getitem components (-1) ;;
  Ok (mk ty nm).

Definition get_full_expression (self : t) : string :=
  Type_.type_string (type self) ++ " " ++ name self.

Definition get_struct_name (self : t) : result string :=
  Type_.get_struct_name (type self).

Definition is_struct (self : t) : result bool :=
  Type_.is_struct (type self).

Definition is_pointer (self : t) : result bool :=
  Type_.is_pointer (type self).

Definition is_pointer_pointer (self : t) : result bool :=
  Type_.is_pointer_pointer (type self).

End FunctionParameter.

(** ** class FunctionPrototype *)

Module FunctionPrototype.

Record t : Set := mk {
  parameters : list FunctionParameter.t;
  ret : Type_.t;
  function_name : string
}.

Definition init (text : string) : result t :=
  let parens_split := str_split "(" text in
  left_part <- getitem parens_split 0 ;;
  let ret_and_name := str_split " " left_part in
  right_part <- getitem parens_split (-1) ;;
  all_params <- getitem (str_split ")" right_part) 0 ;;
  let param_strings := str_split "," all_params in
  params <- mapM FunctionParameter.init param_strings ;;
  let ret_type := Type_.init (str_join " " (slice_to ret_and_name (-1))) in
  fname <- getitem ret_and_name (-1) ;;
  Ok (mk params ret_type fname).

Definition get_args_struct_name (self : t) : string :=
  "uhyve_" ++ function_name self ++ "_t".

Definition get_port_name (self : t) : string :=
  "UHYVE_PORT_" ++ str_upper (function_name self).

Definition get_parameter_types (self : t) : list string :=
  map (fun param => Type_.type_string (FunctionParameter.type param))
      (parameters self).

Definition get_num_parameters (self : t) : nat :=
  List.length (parameters self).

Definition get_uhyve_call_function_name (self : t) : string :=
  "call_" ++ function_name self.

Definition get_string_of_parameters (self : t) : string :=
  str_join ", " (map FunctionParameter.get_full_expression (parameters self)).

Definition generate_args_struct (self : t) : string :=
  let code := "typedef struct {" ++ LF in
  let code := code ++ TAB ++ "// Parameters:" ++ LF in
  let code :=
    fold_left
      (fun code param =>
         code ++ TAB ++ FunctionParameter.get_full_expression param ++ ";" ++ LF)
      (or_empty (parameters self)) code in
  let code :=
    if negb (Type_.is_void (ret self))
    then (code ++ TAB ++ "// Return value:" ++ LF)
           ++ TAB ++ Type_.type_string (ret self) ++ " ret;" ++ LF
    else code in
  code ++ "} __attribute__((packed)) " ++ get_args_struct_name self ++ ";"
       ++ LF ++ LF.

Definition generate_function_declaration (self : t) : string :=
  Type_.type_string (ret self) ++ " " ++ function_name self ++ "("
    ++ get_string_of_parameters self ++ ");" ++ LF.

Definition generate_uhyve_function_declaration (self : t) : string :=
  let name := get_uhyve_call_function_name self in
  "void " ++ name ++ "(struct kvm_run * run, uint8_t * guest_mem);" ++ LF.

End FunctionPrototype.

(** ** The emitters *)

Definition generate_pretty_comment (text : string) : string :=
  "/*" ++ LF ++ " * " ++ text ++ LF ++ " */" ++ LF ++ LF.

Definition generate_kernel_header_declarations
  (function_prototypes : list FunctionPrototype.t) : string :=
  fold_left
    (fun code pt => code ++ FunctionPrototype.generate_function_declaration pt)
    function_prototypes EmptyString.

(** One turn of the loop over the parameters in [generate_kernel_function]. *)
Definition kernel_function_step (code : string) (p : FunctionParameter.t)
  : result string :=
  pp <- FunctionParameter.is_pointer_pointer p ;;
  if pp : bool
  then Ok (code ++ TAB ++ "// TODO: Take care of ** parameter." ++ LF)
  else Ok (code ++ TAB ++ "uhyve_args." ++ FunctionParameter.name p ++ " = "
                ++ FunctionParameter.name p ++ ";" ++ LF).

Definition generate_kernel_function (function_prototype : FunctionPrototype.t)
  : result string :=
  let fnc_name := FunctionPrototype.function_name function_prototype in
  let ret_type := FunctionPrototype.ret function_prototype in
  let params := FunctionPrototype.parameters function_prototype in
  let port_name := FunctionPrototype.get_port_name function_prototype in
  let comma_separated_params :=
    FunctionPrototype.get_string_of_parameters function_prototype in
  let code := Type_.type_string ret_type ++ " " ++ fnc_name ++ "("
                ++ comma_separated_params ++ ") {" ++ LF in
  let code := code ++ TAB
                ++ FunctionPrototype.get_args_struct_name function_prototype
                ++ " uhyve_args;" ++ LF in
  code <- foldM kernel_function_step (or_empty params) code ;;
  let code := code ++ LF in
  let code := code ++ TAB ++ "uhyve_send(" ++ port_name
                ++ ", (unsigned) virt_to_phys((size_t) &uhyve_args));" ++ LF in
  let code :=
    if negb (Type_.is_void ret_type)
    then code ++ LF ++ TAB ++ "return uhyve_args.ret;" ++ LF
    else code in
  Ok (code ++ "}" ++ LF ++ LF).

Definition generate_uhyve_cases (function_prototypes : list FunctionPrototype.t)
  : string :=
  let code := TAB ++ TAB ++ TAB ++ "case UHYVE_PORT_SET_IB_POOL_ADDR: {" ++ LF in
  let code := code ++ TAB ++ TAB ++ TAB ++ TAB ++ TAB
    ++ "unsigned data = *((unsigned*)((size_t)run+run->io.data_offset));" ++ LF in
  let code := code ++ TAB ++ TAB ++ TAB ++ TAB ++ TAB
    ++ "uint64_t * temp = (uint64_t*)(guest_mem + data);" ++ LF in
  let code := code ++ TAB ++ TAB ++ TAB ++ TAB ++ TAB
    ++ "ib_pool_addr = (uint8_t*) *temp;" ++ LF in
  let code := code ++ TAB ++ TAB ++ TAB ++ TAB ++ TAB
    ++ "ib_pool_top = ib_pool_addr;" ++ LF in
  let code := code ++ TAB ++ TAB ++ TAB ++ TAB ++ TAB ++ "break;" ++ LF in
  let code := code ++ TAB ++ TAB ++ TAB ++ "}" ++ LF ++ LF in
  fold_left
    (fun code pt =>
       let call_fnc_name := FunctionPrototype.get_uhyve_call_function_name pt in
       let port_name := FunctionPrototype.get_port_name pt in
       let code := code ++ TAB ++ TAB ++ TAB ++ "case " ++ port_name ++ ":" ++ LF in
       let code := code ++ TAB ++ TAB ++ TAB ++ TAB ++ call_fnc_name
                     ++ "(run, guest_mem);" ++ LF in
       code ++ TAB ++ TAB ++ TAB ++ TAB ++ "break;" ++ LF)
    function_prototypes code.

Definition generate_uhyve_function (prototype : FunctionPrototype.t)
  : result string :=
  let args_struct_name := FunctionPrototype.get_args_struct_name prototype in
  let fnc_name := FunctionPrototype.function_name prototype in
  let ret_type := FunctionPrototype.ret prototype in
  let code := generate_pretty_comment fnc_name in
  let code := code ++ "void call_" ++ fnc_name
    ++ "(struct kvm_run * run, uint8_t * guest_mem) {" ++ LF in
  let code := code ++ TAB ++ "printf(" ++ DQ ++ "LOG: UHYVE - call_" ++ fnc_name
    ++ "\n" ++ DQ ++ ");" ++ LF in
  let code := code ++ TAB
    ++ "unsigned data = *((unsigned*) ((size_t) run + run->io.data_offset));"
    ++ LF in
  let code := code ++ TAB ++ args_struct_name ++ " * args = ("
    ++ args_struct_name ++ " *) (guest_mem + data);" ++ LF ++ LF in
  let code := code ++ TAB ++ "use_ib_mem_pool = true;" ++ LF in
  let code := code ++ (TAB
    ++ (if negb (Type_.is_void ret_type) then "args->ret = " else EmptyString)
    ++ fnc_name ++ "(") in
  code <-
    (if (0 <? FunctionPrototype.get_num_parameters prototype)%nat
     then
       let code :=
         fold_left
           (fun code param =>
              code ++ "args->" ++ FunctionParameter.name param ++ ", ")
           (or_empty (slice_to (FunctionPrototype.parameters prototype) (-1)))
           code in
       final <- getitem (FunctionPrototype.parameters prototype) (-1) ;;
       Ok (code ++ "args->" ++ FunctionParameter.name final ++ ");" ++ LF)
     else Ok code) ;;
  Ok (code ++ TAB ++ "use_ib_mem_pool = false;" ++ LF ++ "}" ++ LF ++ LF ++ LF).

(** [enumerate(l, start)]. *)
Fixpoint enumerate {A : Type} (l : list A) (start : Z) : list (Z * A) :=
  match l with
  | [] => []
  | x :: xs => (start, x) :: enumerate xs (start + 1)
  end.

(** [generate_port_enum] with the module constant as an argument. *)
Definition generate_port_enum_from (port_number_start : Z)
  (function_prototypes : list FunctionPrototype.t) : string :=
  let code := "typedef enum {" ++ LF in
  let code := code ++ TAB ++ "UHYVE_PORT_SET_IB_POOL_ADDR = 0x"
                ++ format_X (port_number_start - 1) ++ "," ++ LF in
  let code :=
    fold_left
      (fun code '(num, pt) =>
         let port_name := FunctionPrototype.get_port_name pt in
         code ++ TAB ++ port_name ++ " = 0x" ++ format_X num ++ "," ++ LF)
      (enumerate function_prototypes port_number_start) code in
  code ++ "} uhyve_ibv_t;".

Definition generate_port_enum : list FunctionPrototype.t -> string :=
  generate_port_enum_from PORT_NUMBER_START.

(** [generate_port_macros] with the module constant as an argument. *)
Definition generate_port_macros_from (port_number_start : Z)
  (function_prototypes : list FunctionPrototype.t) : string :=
  let code := "#define UHYVE_PORT_SET_IB_POOL_ADDR 0x"
                ++ format_X (port_number_start - 1) ++ LF in
  fold_left
    (fun code '(num, pt) =>
       let port_name := FunctionPrototype.get_port_name pt in
       code ++ "#define " ++ port_name ++ " 0x" ++ format_X num ++ LF)
    (enumerate function_prototypes port_number_start) code.

Definition generate_port_macros : list FunctionPrototype.t -> string :=
  generate_port_macros_from PORT_NUMBER_START.

(** ** The script body *)

(** The files the script reads and writes: a path has a content or is absent. *)
Definition fs : Type := string -> option string.

Definition fs_set (path content : string) (st : fs) : fs :=
  fun p => if String.eqb p path then Some content else st p.

(** Statements with an effect on the files. An exception leaves the files as
    they are at that point: nothing is rolled back. *)
Definition io (A : Type) : Type := fs -> result A * fs.

Definition io_ret {A : Type} (a : A) : io A := fun st => (Ok a, st).

Definition io_bind {A B : Type} (m : io A) (k : A -> io B) : io B :=
  fun st =>
    match m st with
    | (Ok a, st') => k a st'
    | (Raise e, st') => (Raise e, st')
    end.

Notation "x <~ m ;; k" := (io_bind m (fun x => k))
  (at level 61, m at next level, right associativity).
Notation "m >> k" := (io_bind m (fun _ => k))
  (at level 61, right associativity).

Definition io_lift {A : Type} (r : result A) : io A := fun st => (r, st).

(** [open(path, "r")] and reading it whole. *)
Definition read_file (path : string) : io string :=
  fun st =>
    match st path with
    | Some content => (Ok content, st)
    | None => (Raise (IOError path), st)
    end.

(** [open(path, "w")]: the file is created or emptied. *)
Definition open_w (path : string) : io unit :=
  fun st => (Ok tt, fs_set path EmptyString st).

(** [f.write(text)] on a file opened for writing: the text goes to its end. *)
Definition write (path text : string) : io unit :=
  fun st =>
    match st path with
    | Some content => (Ok tt, fs_set path (content ++ text) st)
    | None => (Raise (IOError path), st)
    end.

Fixpoint io_for {A : Type} (l : list A) (body : A -> io unit) : io unit :=
  match l with
  | [] => io_ret tt
  | x :: xs => body x >> io_for xs body
  end.

(** Iterating over a text file: every line comes with its newline, the last
    one as it is when the file does not end in a newline. *)
Fixpoint file_lines (s : string) : list string :=
  match s with
  | EmptyString => []
  | String c rest =>
      if Ascii.eqb c (ascii_of_nat 10) then String c EmptyString :: file_lines rest
      else match file_lines rest with
           | [] => [String c EmptyString]
           | l :: ls => String c l :: ls
           end
  end.

(** The truth value of a string in a condition. *)
Definition str_bool (s : string) : bool :=
  negb (String.eqb s EmptyString).

(** The loop that fills [prototypes] from the lines of the input. *)
Definition read_prototypes (lines : list string)
  : result (list FunctionPrototype.t) :=
  foldM
    (fun prototypes line =>
       if str_bool line
       then pt <- FunctionPrototype.init line ;; Ok (prototypes ++ [pt])%list
       else Ok prototypes)
    lines [].

Definition main : io unit :=
  text <~ read_file SRC_PATH ;;
  prototypes <~ io_lift (read_prototypes (file_lines text)) ;;
  open_w UHYVE_CASES_GEN_PATH >>
  write UHYVE_CASES_GEN_PATH (generate_uhyve_cases prototypes) >>
  open_w INCLUDE_STDDEF_GEN_PATH >>
  write INCLUDE_STDDEF_GEN_PATH (generate_port_macros prototypes) >>
  open_w UHYVE_IBV_HEADER_GEN_PATH >>
  write UHYVE_IBV_HEADER_GEN_PATH (generate_port_enum prototypes) >>
  write UHYVE_IBV_HEADER_GEN_PATH (LF ++ LF) >>
  io_for prototypes
    (fun pt =>
       write UHYVE_IBV_HEADER_GEN_PATH
         (FunctionPrototype.generate_args_struct pt)) >>
  write UHYVE_IBV_HEADER_GEN_PATH (LF ++ LF) >>
  io_for prototypes
    (fun pt =>
       write UHYVE_IBV_HEADER_GEN_PATH
         (FunctionPrototype.generate_uhyve_function_declaration pt)) >>
  open_w UHYVE_HOST_FCNS_GEN_PATH >>
  io_for prototypes
    (fun pt =>
       code <~ io_lift (generate_uhyve_function pt) ;;
       write UHYVE_HOST_FCNS_GEN_PATH code) >>
  open_w KERNEL_HEADER_GEN_PATH >>
  write KERNEL_HEADER_GEN_PATH
    (generate_kernel_header_declarations prototypes) >>
  open_w KERNEL_GEN_PATH >>
  io_for prototypes
    (fun pt =>
       write KERNEL_GEN_PATH
         (generate_pretty_comment (FunctionPrototype.function_name pt)) >>
       write KERNEL_GEN_PATH (FunctionPrototype.generate_args_struct pt) >>
       code <~ io_lift (generate_kernel_function pt) ;;
       write KERNEL_GEN_PATH code >>
       write KERNEL_GEN_PATH LF).

(** ** Vocabulary of the statements *)

(** Whether a character occurs in a string. *)
Fixpoint has_char (c : ascii) (s : string) : bool :=
  match s with
  | EmptyString => false
  | String d rest => Ascii.eqb d c || has_char c rest
  end.

(** The pieces of a text put one after the other. *)
Fixpoint str_concat (l : list string) : string :=
  match l with
  | [] => EmptyString
  | x :: xs => x ++ str_concat xs
  end.

(** What [FunctionParameter(fragment)] builds, read off without the
    exceptions: the last piece is the name, the pieces before it the type. *)
Definition parse_parameter (fragment : string) : FunctionParameter.t :=
  let components := str_split " " fragment in
  FunctionParameter.mk
    (Type_.init (str_join " " (removelast components)))
    (last components EmptyString).

(** The fragments between the commas of a line's parameter list. *)
Definition param_fragments (line : string) : list string :=
  let right_part := last (str_split "(" line) EmptyString in
  str_split "," (hd EmptyString (str_split ")" right_part)).

(** What [FunctionPrototype(line)] builds, read off without the exceptions. *)
Definition parse_prototype (line : string) : FunctionPrototype.t :=
  let ret_and_name := str_split " " (hd EmptyString (str_split "(" line)) in
  FunctionPrototype.mk
    (map parse_parameter (param_fragments line))
    (Type_.init (str_join " " (removelast ret_and_name)))
    (last ret_and_name EmptyString).

(** The parameter an empty fragment parses to: no type and no name. *)
Definition phantom_parameter : FunctionParameter.t :=
  FunctionParameter.mk (Type_.mk EmptyString [EmptyString]) EmptyString.

(** A parameter whose type string has one more space in front. *)
Definition indent_parameter (p : FunctionParameter.t) : FunctionParameter.t :=
  FunctionParameter.mk
    (Type_.init (" " ++ Type_.type_string (FunctionParameter.type p)))
    (FunctionParameter.name p).

(** What re-parsing the canonical parameter string makes of a parameter
    list: the first parameter as it is, the later ones indented. *)
Definition reparsed_parameters (ps : list FunctionParameter.t)
  : list FunctionParameter.t :=
  match ps with
  | [] => []
  | p :: rest => p :: map indent_parameter rest
  end.

(** The name of the reserved control port. *)
Definition CONTROL_PORT_NAME : string := "UHYVE_PORT_SET_IB_POOL_ADDR".

(** The port assignment as the design states it: the reserved control code
    just below the base, then the code [base + i] for the prototype at
    position [i] of the input, counted from 0. *)
Definition spec_port_table (base : Z) (pts : list FunctionPrototype.t)
  : list (string * Z) :=
  (CONTROL_PORT_NAME, (base - 1)%Z)
  :: map (fun '(i, pt) =>
            (FunctionPrototype.get_port_name pt, (base + Z.of_nat i)%Z))
         (combine (seq 0 (List.length pts)) pts).

(** One enumerator and one macro for a name and its code. *)
Definition enum_entry (binding : string * Z) : string :=
  TAB ++ fst binding ++ " = 0x" ++ format_X (snd binding) ++ "," ++ LF.

Definition macro_entry (binding : string * Z) : string :=
  "#define " ++ fst binding ++ " 0x" ++ format_X (snd binding) ++ LF.

(** Reading a hexadecimal literal back. *)
Definition hex_digit_value (c : ascii) : N :=
  let n := N_of_ascii c in
  if (n <? 58)%N then (n - 48)%N else (n - 55)%N.

Fixpoint hex_value_from (s : string) (acc : N) : N :=
  match s with
  | EmptyString => acc
  | String c rest => hex_value_from rest (16 * acc + hex_digit_value c)
  end.

Definition hex_value (s : string) : N := hex_value_from s 0.

Definition parse_X (s : string) : Z :=
  match s with
  | String "-" rest => (- Z.of_N (hex_value rest))%Z
  | _ => Z.of_N (hex_value s)
  end.

(** The field that the record emitter writes for a parameter, and the lines
    it writes for the return value. *)
Definition struct_field (param : FunctionParameter.t) : string :=
  TAB ++ FunctionParameter.get_full_expression param ++ ";" ++ LF.

Definition ret_field (ret_type : Type_.t) : string :=
  TAB ++ "// Return value:" ++ LF
      ++ TAB ++ Type_.type_string ret_type ++ " ret;" ++ LF.

(** Whether the last component of a type is the double star. *)
Definition ends_in_double_star (ty : Type_.t) : bool :=
  String.eqb (last (Type_.type_components ty) EmptyString) "**".

(** The statement that the guest stub holds for a parameter: the marked
    placeholder for a pointer to a pointer, the copy into the field of the
    same name otherwise. *)
Definition placeholder_comment : string :=
  TAB ++ "// TODO: Take care of ** parameter." ++ LF.

Definition field_copy (param : FunctionParameter.t) : string :=
  TAB ++ "uhyve_args." ++ FunctionParameter.name param ++ " = "
      ++ FunctionParameter.name param ++ ";" ++ LF.

Definition stub_statement (param : FunctionParameter.t) : string :=
  if ends_in_double_star (FunctionParameter.type param)
  then placeholder_comment
  else field_copy param.

Definition return_statement : string :=
  LF ++ TAB ++ "return uhyve_args.ret;" ++ LF.

(** The guest stub, piece by piece. *)
Definition stub_text (pt : FunctionPrototype.t) : string :=
  (Type_.type_string (FunctionPrototype.ret pt) ++ " "
     ++ FunctionPrototype.function_name pt ++ "("
     ++ FunctionPrototype.get_string_of_parameters pt ++ ") {" ++ LF)
  ++ (TAB ++ FunctionPrototype.get_args_struct_name pt ++ " uhyve_args;" ++ LF)
  ++ str_concat (map stub_statement (FunctionPrototype.parameters pt))
  ++ LF
  ++ (TAB ++ "uhyve_send(" ++ FunctionPrototype.get_port_name pt
        ++ ", (unsigned) virt_to_phys((size_t) &uhyve_args));" ++ LF)
  ++ (if Type_.is_void (FunctionPrototype.ret pt)
      then EmptyString else return_statement)
  ++ "}" ++ LF ++ LF.

(** Everything the emitters produce from a list of prototypes. *)
Record artifacts : Type := mk_artifacts {
  uhyve_cases : string;
  port_macros : string;
  port_enum : string;
  args_structs : list string;
  uhyve_declarations : list string;
  uhyve_functions : list (result string);
  kernel_header : string;
  kernel_functions : list (result string)
}.

Definition emitted (base : Z) (pts : list FunctionPrototype.t) : artifacts :=
  mk_artifacts
    (generate_uhyve_cases pts)
    (generate_port_macros_from base pts)
    (generate_port_enum_from base pts)
    (map FunctionPrototype.generate_args_struct pts)
    (map FunctionPrototype.generate_uhyve_function_declaration pts)
    (map generate_uhyve_function pts)
    (generate_kernel_header_declarations pts)
    (map generate_kernel_function pts).

(** The files the script writes. *)
Definition GEN_PATHS : list string :=
  [ UHYVE_CASES_GEN_PATH; INCLUDE_STDDEF_GEN_PATH; UHYVE_IBV_HEADER_GEN_PATH;
    UHYVE_HOST_FCNS_GEN_PATH; KERNEL_HEADER_GEN_PATH; KERNEL_GEN_PATH ].

(** Two states of the files with the same contents at the paths of [W]. *)
Definition agree (W : list string) (st1 st2 : fs) : Prop :=
  forall p, In p W -> st1 p = st2 p.

(** A statement that behaves the same from any two states that agree on [W]:
    the same value and states that agree on [W'], or the same exception. *)
Definition same_run {A : Type} (W W' : list string) (m : io A) : Prop :=
  forall st1 st2, agree W st1 st2 ->
    match m st1, m st2 with
    | (Ok a1, s1), (Ok a2, s2) => a1 = a2 /\ agree W' s1 s2
    | (Raise e1, _), (Raise e2, _) => e1 = e2
    | _, _ => False
    end.

(** The files at the paths of [W] exist. *)
Definition present (W : list string) (st : fs) : Prop :=
  forall p, In p W -> st p <> None.

(** A statement that, from a state where the files of [W] exist, ends
    without an exception, with a value that satisfies [Q] and in a state
    where the files of [W'] exist. *)
Definition succeeds {A : Type} (W W' : list string) (m : io A)
  (Q : A -> Prop) : Prop :=
  forall st, present W st ->
    exists a st', m st = (Ok a, st') /\ Q a /\ present W' st'.

(** A prototype whose parameter types all have a component: what the
    constructors build. *)
Definition has_components (pt : FunctionPrototype.t) : Prop :=
  Forall (fun p => Type_.type_components (FunctionParameter.type p) <> [])
         (FunctionPrototype.parameters pt).

(** How many times a character occurs in a string. *)
Fixpoint count_char (c : ascii) (s : string) : nat :=
  match s with
  | EmptyString => 0
  | String d rest =>
      if Ascii.eqb d c then S (count_char c rest) else count_char c rest
  end.


(** The arguments of the call in the host function and what closes the
    call; nothing at all for an empty parameter list. *)
Definition host_call_arguments (params : list FunctionParameter.t) : string :=
  match params with
  | [] => EmptyString
  | _ :: _ =>
      str_join ", " (map (fun p => "args->" ++ FunctionParameter.name p) params)
        ++ ");" ++ LF
  end.

(** The head of the host function: its return type, name and parameters. *)
Definition host_signature (pt : FunctionPrototype.t) : string :=
  "void " ++ FunctionPrototype.get_uhyve_call_function_name pt
          ++ "(struct kvm_run * run, uint8_t * guest_mem)".

(** The body of the host function, after the opening brace. *)
Definition host_body (pt : FunctionPrototype.t) : string :=
  (TAB ++ "printf(" ++ DQ ++ "LOG: UHYVE - call_"
       ++ FunctionPrototype.function_name pt ++ "\n" ++ DQ ++ ");" ++ LF)
  ++ (TAB
        ++ "unsigned data = *((unsigned*) ((size_t) run + run->io.data_offset));"
        ++ LF)
  ++ (TAB ++ FunctionPrototype.get_args_struct_name pt ++ " * args = ("
          ++ FunctionPrototype.get_args_struct_name pt
          ++ " *) (guest_mem + data);" ++ LF ++ LF)
  ++ (TAB ++ "use_ib_mem_pool = true;" ++ LF)
  ++ (TAB ++ (if Type_.is_void (FunctionPrototype.ret pt)
              then EmptyString else "args->ret = ")
          ++ FunctionPrototype.function_name pt ++ "(")
  ++ host_call_arguments (FunctionPrototype.parameters pt)
  ++ TAB ++ "use_ib_mem_pool = false;" ++ LF ++ "}" ++ LF ++ LF ++ LF.

Definition host_text (pt : FunctionPrototype.t) : string :=
  generate_pretty_comment (FunctionPrototype.function_name pt)
    ++ host_signature pt ++ " {" ++ LF ++ host_body pt.

(** The head of the guest function. *)
Definition kernel_signature (pt : FunctionPrototype.t) : string :=
  Type_.type_string (FunctionPrototype.ret pt) ++ " "
    ++ FunctionPrototype.function_name pt ++ "("
    ++ FunctionPrototype.get_string_of_parameters pt ++ ")".



(** What the script writes to the guest source file for one prototype. *)
Definition kernel_block (pt : FunctionPrototype.t) : string :=
  generate_pretty_comment (FunctionPrototype.function_name pt)
    ++ FunctionPrototype.generate_args_struct pt
    ++ stub_text pt ++ LF.

(** The generated files and their contents, for a list of prototypes. *)
Definition generated_files (pts : list FunctionPrototype.t)
  : list (string * string) :=
  [ (UHYVE_CASES_GEN_PATH, generate_uhyve_cases pts);
    (INCLUDE_STDDEF_GEN_PATH, generate_port_macros pts);
    (UHYVE_IBV_HEADER_GEN_PATH,
     generate_port_enum pts ++ LF ++ LF
       ++ str_concat (map FunctionPrototype.generate_args_struct pts)
       ++ LF ++ LF
       ++ str_concat
            (map FunctionPrototype.generate_uhyve_function_declaration pts));
    (UHYVE_HOST_FCNS_GEN_PATH, str_concat (map host_text pts));
    (KERNEL_HEADER_GEN_PATH, generate_kernel_header_declarations pts);
    (KERNEL_GEN_PATH, str_concat (map kernel_block pts)) ].

(** A state of the files with the listed files put over it. *)
Definition fs_with (files : list (string * string)) (st : fs) : fs :=
  fun p =>
    match find (fun entry => String.eqb p (fst entry)) files with
    | Some entry => Some (snd entry)
    | None => st p
    end.

(** Two states of the files with the same content at every path. *)
Definition fs_eq (st st' : fs) : Prop := forall p, st p = st' p.

(** A statement that, from any state equal to [S], ends without an
    exception with the value [a] in a state equal to [S']. *)
Definition reaches {A : Type} (S : fs) (m : io A) (a : A) (S' : fs) : Prop :=
  forall st, fs_eq st S ->
    exists st', m st = (Ok a, st') /\ fs_eq st' S'.

(** ** Strings and lists *)

Lemma append_nil_r (s : string) : s ++ EmptyString = s.
Proof.
  induction s as [|c s IH]; simpl; [reflexivity | now rewrite IH].
Qed.

Lemma append_assoc (a b c : string) : (a ++ b) ++ c = a ++ (b ++ c).
Proof.
  induction a as [|x a IH]; simpl; [reflexivity | now rewrite IH].
Qed.

Lemma has_char_app (c : ascii) (a b : string) :
  has_char c (a ++ b) = has_char c a || has_char c b.
Proof.
  induction a as [|x a IH]; simpl; [reflexivity|].
  now rewrite IH, orb_assoc.
Qed.

Lemma fold_left_append {A : Type} (f : A -> string) (l : list A) (code : string) :
  fold_left (fun code x => code ++ f x) l code = code ++ str_concat (map f l).
Proof.
  revert code; induction l as [|x l IH]; intros code; simpl.
  - now rewrite append_nil_r.
  - now rewrite IH, append_assoc.
Qed.

Lemma or_empty_id {A : Type} (l : list A) : or_empty l = l.
Proof. now destruct l. Qed.

(** *** Indexing and slicing *)

Lemma getitem_0 {A : Type} (x : A) (l : list A) : getitem (x :: l) 0 = Ok x.
Proof.
  unfold getitem. cbn [List.length]. 
  replace (0 <? 0)%Z with false by reflexivity.
  replace ((0 <? 0) || (Z.of_nat (S (List.length l)) <=? 0))%Z with false.
  - reflexivity.
  - symmetry. apply orb_false_iff. split; [reflexivity|]. apply Z.leb_gt. lia.
Qed.

Lemma getitem_hd {A : Type} (d : A) (l : list A) :
  l <> [] -> getitem l 0 = Ok (hd d l).
Proof.
  destruct l as [|x l]; [congruence|]. intros _. apply getitem_0.
Qed.

Lemma getitem_last {A : Type} (d : A) (l : list A) :
  l <> [] -> getitem l (-1) = Ok (last l d).
Proof.
  intros Hne.
  destruct (exists_last Hne) as [front [x ->]].
  rewrite last_last. unfold getitem.
  rewrite length_app. cbn [List.length].
  replace (-1 <? 0)%Z with true by reflexivity.
  replace (-1 + Z.of_nat (List.length front + 1))%Z
    with (Z.of_nat (List.length front)) by lia.
  replace ((Z.of_nat (List.length front) <? 0)
           || (Z.of_nat (List.length front + 1) <=? Z.of_nat (List.length front)))%Z
    with false.
  - rewrite Nat2Z.id, nth_error_app2 by lia.
    now rewrite Nat.sub_diag.
  - symmetry. apply orb_false_iff. split; [apply Z.ltb_ge | apply Z.leb_gt]; lia.
Qed.

Lemma slice_to_removelast {A : Type} (l : list A) :
  slice_to l (-1) = removelast l.
Proof.
  unfold slice_to. replace (-1 <? 0)%Z with true by reflexivity.
  rewrite removelast_firstn_len. f_equal.
  destruct l as [|x l]; [reflexivity|]. cbn [List.length]. lia.
Qed.

(** *** Splitting and joining *)

Lemma str_split_nonempty (sep : ascii) (s : string) : str_split sep s <> [].
Proof.
  destruct s as [|c s]; simpl; [discriminate|].
  destruct (Ascii.eqb c sep); [discriminate|].
  destruct (str_split sep s); discriminate.
Qed.

Lemma str_split_cons_other (sep c : ascii) (s : string) :
  Ascii.eqb c sep = false ->
  str_split sep (String c s)
  = String c (hd EmptyString (str_split sep s)) :: tl (str_split sep s).
Proof.
  intros Hc. simpl. rewrite Hc.
  pose proof (str_split_nonempty sep s) as Hne.
  destruct (str_split sep s); [congruence | reflexivity].
Qed.

Lemma str_split_no_sep (sep : ascii) (s : string) :
  has_char sep s = false -> str_split sep s = [s].
Proof.
  induction s as [|c s IH]; simpl; [reflexivity|].
  intros H. apply orb_false_iff in H as [Hc Hs].
  now rewrite Hc, (IH Hs).
Qed.

Lemma str_split_app_sep (sep : ascii) (a b : string) :
  str_split sep (a ++ String sep b) = (str_split sep a ++ str_split sep b)%list.
Proof.
  induction a as [|c a IH]; simpl.
  - now rewrite Ascii.eqb_refl.
  - destruct (Ascii.eqb c sep); rewrite IH.
    + reflexivity.
    + pose proof (str_split_nonempty sep a) as Hne.
      destruct (str_split sep a); [congruence | reflexivity].
Qed.

Lemma str_split_pieces (sep : ascii) (s : string) :
  Forall (fun w => has_char sep w = false) (str_split sep s).
Proof.
  induction s as [|c s IH]; simpl.
  - now constructor.
  - destruct (Ascii.eqb c sep) eqn:Hc.
    + now constructor.
    + destruct (str_split sep s) as [|w ws].
      { constructor; [simpl; now rewrite Hc | constructor]. }
      inversion IH as [|? ? Hw Hws]; subst.
      constructor; [simpl; now rewrite Hc | assumption].
Qed.

Lemma str_join_cons (sep x y : string) (l : list string) :
  str_join sep (x :: y :: l) = x ++ sep ++ str_join sep (y :: l).
Proof. reflexivity. Qed.

Lemma str_join_split (sep : ascii) (s : string) :
  str_join (String sep EmptyString) (str_split sep s) = s.
Proof.
  induction s as [|c s IH]; [reflexivity|].
  cbn [str_split].
  pose proof (str_split_nonempty sep s) as Hne.
  destruct (Ascii.eqb c sep) eqn:Hc.
  - apply Ascii.eqb_eq in Hc; subst c.
    destruct (str_split sep s) as [|w ws]; [congruence|].
    rewrite str_join_cons, IH. reflexivity.
  - destruct (str_split sep s) as [|w ws]; [congruence|].
    destruct ws as [|w' ws].
    + simpl in *. now rewrite IH.
    + rewrite str_join_cons in IH |- *. cbn [append]. f_equal. exact IH.
Qed.

Lemma str_split_last_no_sep (sep : ascii) (s : string) :
  has_char sep (last (str_split sep s) EmptyString) = false.
Proof.
  pose proof (str_split_pieces sep s) as Hall.
  pose proof (str_split_nonempty sep s) as Hne.
  destruct (exists_last Hne) as [front [x Heq]].
  rewrite Heq in *. rewrite last_last.
  apply Forall_app in Hall as [_ Hx]. now inversion Hx.
Qed.

Lemma str_split_hd_no_sep (sep : ascii) (s : string) :
  has_char sep (hd EmptyString (str_split sep s)) = false.
Proof.
  pose proof (str_split_pieces sep s) as Hall.
  destruct (str_split sep s); [reflexivity | now inversion Hall].
Qed.

(** ** The parser never raises *)

Lemma mapM_total {A B : Type} (f : A -> result B) (g : A -> B) (l : list A) :
  (forall x, f x = Ok (g x)) -> mapM f l = Ok (map g l).
Proof.
  intros Hf. induction l as [|x l IH]; simpl; [reflexivity|].
  now rewrite Hf, IH.
Qed.

Lemma FunctionParameter_init_total (fragment : string) :
  FunctionParameter.init fragment = Ok (parse_parameter fragment).
Proof.
  unfold FunctionParameter.init, parse_parameter.
  rewrite slice_to_removelast.
  rewrite (getitem_last EmptyString) by apply str_split_nonempty.
  reflexivity.
Qed.

Lemma FunctionPrototype_init_total (line : string) :
  FunctionPrototype.init line = Ok (parse_prototype line).
Proof.
  unfold FunctionPrototype.init, parse_prototype, param_fragments.
  rewrite (getitem_hd EmptyString) by apply str_split_nonempty.
  cbn [bind].
  rewrite (getitem_last EmptyString) by apply str_split_nonempty.
  cbn [bind].
  rewrite (getitem_hd EmptyString) by apply str_split_nonempty.
  cbn [bind].
  rewrite (mapM_total _ parse_parameter) by apply FunctionParameter_init_total.
  cbn [bind].
  rewrite slice_to_removelast.
  rewrite (getitem_last EmptyString) by apply str_split_nonempty.
  reflexivity.
Qed.

Lemma param_fragments_nonempty (line : string) : param_fragments line <> [].
Proof. apply str_split_nonempty. Qed.

Lemma parse_prototype_parameters_nonempty (line : string) :
  FunctionPrototype.parameters (parse_prototype line) <> [].
Proof.
  cbn [parse_prototype FunctionPrototype.parameters].
  pose proof (param_fragments_nonempty line) as Hne.
  destruct (param_fragments line); [congruence | discriminate].
Qed.

(** ** The type classifier *)

Lemma Type_is_struct_init (s : string) :
  Type_.is_struct (Type_.init s)
  = Ok (String.eqb (hd EmptyString (str_split " " s)) "struct").
Proof.
  unfold Type_.is_struct, Type_.init. cbn [Type_.type_components].
  now rewrite (getitem_hd EmptyString) by apply str_split_nonempty.
Qed.

Lemma Type_is_pointer_init (s : string) :
  Type_.is_pointer (Type_.init s)
  = Ok (String.eqb (last (str_split " " s) EmptyString) "*").
Proof.
  unfold Type_.is_pointer, Type_.init. cbn [Type_.type_components].
  now rewrite (getitem_last EmptyString) by apply str_split_nonempty.
Qed.

Lemma Type_is_pointer_pointer_init (s : string) :
  Type_.is_pointer_pointer (Type_.init s)
  = Ok (String.eqb (last (str_split " " s) EmptyString) "**").
Proof.
  unfold Type_.is_pointer_pointer, Type_.init. cbn [Type_.type_components].
  now rewrite (getitem_last EmptyString) by apply str_split_nonempty.
Qed.

Lemma Type_is_char_arr_init (s : string) :
  Type_.is_char_arr (Type_.init s)
  = Ok (String.eqb (last (str_split " " s) EmptyString) "*"
        && str_in "char" (str_split " " s)).
Proof.
  unfold Type_.is_char_arr. rewrite Type_is_pointer_init. cbn [bind].
  now destruct (String.eqb (last (str_split " " s) EmptyString) "*").
Qed.

(** The bare name [is_struct] is bound nowhere, whatever the descriptor. *)
Lemma Type_get_struct_name_raises (t : Type_.t) :
  Type_.get_struct_name t = Raise (NameError "is_struct").
Proof. reflexivity. Qed.

(** C1. A line that declares no parameter is still parsed to a parameter
    list of one element, the phantom parameter whose type string and name
    are empty: the parameter list of a parsed prototype is never empty, and
    both [void f()] and [void f( )] give exactly the phantom parameter. *)
Theorem zero_parameters_parse_to_phantom :
  (forall line, exists pt,
      FunctionPrototype.init line = Ok pt
      /\ FunctionPrototype.parameters pt <> []) /\
  FunctionPrototype.init "void f()"
  = Ok (FunctionPrototype.mk [phantom_parameter] (Type_.init "void") "f") /\
  FunctionPrototype.init "void f( )"
  = Ok (FunctionPrototype.mk [phantom_parameter] (Type_.init "void") "f") /\
  FunctionParameter.get_full_expression phantom_parameter = " ".
Proof.
  split; [|repeat split; reflexivity].
  intros line. exists (parse_prototype line). split.
  - apply FunctionPrototype_init_total.
  - apply parse_prototype_parameters_nonempty.
Qed.

(** C2. On ["struct ibv_context **"] the classifier answers struct and
    pointer-pointer, and the second token is [ibv_context], but asking for
    the struct tag raises NameError instead of returning it; for every type
    string [is_struct] compares the first token with [struct]. *)
Theorem struct_tag_accessor_raises :
  (forall s,
      Type_.is_struct (Type_.init s) = Ok true
      <-> hd EmptyString (str_split " " s) = "struct") /\
  let t := Type_.init "struct ibv_context **" in
  Type_.is_struct t = Ok true /\
  Type_.is_pointer_pointer t = Ok true /\
  Type_.is_pointer t = Ok false /\
  getitem (Type_.type_components t) 1 = Ok "ibv_context" /\
  Type_.get_struct_name t = Raise (NameError "is_struct").
Proof.
  split; [|repeat split; reflexivity].
  intros s. rewrite Type_is_struct_init. split.
  - intros H. injection H as H. now apply String.eqb_eq.
  - intros ->. reflexivity.
Qed.

(** C8. For every type string the five flags are computed without an error
    and by the rules of the classifier, so that a string whose first token
    is not [struct], whose last token is neither [*] nor [**] and which is
    not [void] has all flags false, as [int***] and the empty string have;
    the struct tag accessor raises NameError on every type string. *)
Theorem classifier_flags_total_tag_raises (s : string) :
  let t := Type_.init s in
  let first := hd EmptyString (str_split " " s) in
  let final := last (str_split " " s) EmptyString in
  Type_.is_struct t = Ok (String.eqb first "struct") /\
  Type_.is_pointer t = Ok (String.eqb final "*") /\
  Type_.is_pointer_pointer t = Ok (String.eqb final "**") /\
  Type_.is_char_arr t
  = Ok (String.eqb final "*" && str_in "char" (str_split " " s)) /\
  Type_.is_void t = String.eqb s "void" /\
  Type_.get_struct_name t = Raise (NameError "is_struct") /\
  Forall (fun shape =>
            let u := Type_.init shape in
            Type_.is_struct u = Ok false /\ Type_.is_pointer u = Ok false /\
            Type_.is_pointer_pointer u = Ok false /\
            Type_.is_char_arr u = Ok false /\ Type_.is_void u = false)
         ["int***"; EmptyString; "char*"; "unsigned  long"].
Proof.
  cbv zeta.
  split; [apply Type_is_struct_init|].
  split; [apply Type_is_pointer_init|].
  split; [apply Type_is_pointer_pointer_init|].
  split; [apply Type_is_char_arr_init|].
  split; [reflexivity|].
  split; [apply Type_get_struct_name_raises|].
  repeat constructor.
Qed.

(** ** Re-parsing the canonical parameter string *)

Lemma str_split_pieces_without (c sep : ascii) (s : string) :
  has_char c s = false ->
  Forall (fun w => has_char c w = false) (str_split sep s).
Proof.
  induction s as [|d s IH]; simpl; intros H.
  - now constructor.
  - apply orb_false_iff in H as [Hd Hs]. specialize (IH Hs).
    destruct (Ascii.eqb d sep).
    + now constructor.
    + destruct (str_split sep s) as [|w ws].
      { constructor; [simpl; now rewrite Hd | constructor]. }
      inversion IH; subst.
      constructor; [simpl; now rewrite Hd | assumption].
Qed.

Lemma str_join_without (c : ascii) (sep : string) (l : list string) :
  has_char c sep = false ->
  Forall (fun w => has_char c w = false) l ->
  has_char c (str_join sep l) = false.
Proof.
  intros Hsep Hall. induction Hall as [|x l Hx Hl IH]; [reflexivity|].
  destruct l as [|y l]; [exact Hx|].
  rewrite str_join_cons, !has_char_app, Hx, Hsep, IH. reflexivity.
Qed.

Lemma Forall_removelast {A : Type} (P : A -> Prop) (l : list A) :
  Forall P l -> Forall P (removelast l).
Proof.
  intros H. induction H as [|x l Hx Hl IH]; [constructor|].
  destruct l as [|y l]; [constructor|].
  cbn [removelast]. constructor; assumption.
Qed.

Lemma Forall_last {A : Type} (P : A -> Prop) (d : A) (l : list A) :
  P d -> Forall P l -> P (last l d).
Proof.
  intros Hd H. induction H as [|x l Hx Hl IH]; [exact Hd|].
  destruct l as [|y l]; [exact Hx | exact IH].
Qed.

(** The canonical expression of a parsed parameter holds no character that
    its fragment does not hold, the space apart. *)
Lemma full_expression_without (c : ascii) (fragment : string) :
  Ascii.eqb " " c = false ->
  has_char c fragment = false ->
  has_char c (FunctionParameter.get_full_expression (parse_parameter fragment))
  = false.
Proof.
  intros Hsp Hf.
  pose proof (str_split_pieces_without c " " fragment Hf) as Hall.
  unfold FunctionParameter.get_full_expression, parse_parameter.
  cbn [FunctionParameter.type FunctionParameter.name Type_.init Type_.type_string].
  rewrite !has_char_app. cbn [has_char]. rewrite Hsp.
  rewrite str_join_without.
  - cbn [orb]. now apply Forall_last.
  - cbn [has_char]. now rewrite Hsp.
  - now apply Forall_removelast.
Qed.

(** A type string, a space and a name without a space parse back to them. *)
Lemma parse_parameter_expression (type_string name : string) :
  has_char " " name = false ->
  parse_parameter (type_string ++ " " ++ name)
  = FunctionParameter.mk (Type_.init type_string) name.
Proof.
  intros Hname. unfold parse_parameter.
  change (type_string ++ " " ++ name) with (type_string ++ String " " name).
  rewrite str_split_app_sep, (str_split_no_sep " " name Hname).
  rewrite removelast_last, last_last, str_join_split. reflexivity.
Qed.

Lemma parse_parameter_name_no_space (fragment : string) :
  has_char " " (FunctionParameter.name (parse_parameter fragment)) = false.
Proof. apply str_split_last_no_sep. Qed.

Lemma parse_parameter_roundtrip (fragment : string) :
  parse_parameter
    (FunctionParameter.get_full_expression (parse_parameter fragment))
  = parse_parameter fragment.
Proof.
  unfold FunctionParameter.get_full_expression.
  rewrite parse_parameter_expression by apply parse_parameter_name_no_space.
  reflexivity.
Qed.

Lemma parse_parameter_indented (fragment : string) :
  parse_parameter
    (" " ++ FunctionParameter.get_full_expression (parse_parameter fragment))
  = indent_parameter (parse_parameter fragment).
Proof.
  unfold FunctionParameter.get_full_expression.
  rewrite <- append_assoc.
  rewrite parse_parameter_expression by apply parse_parameter_name_no_space.
  reflexivity.
Qed.

(** Splitting the comma-and-space join at the commas leaves the space in
    front of every piece but the first. *)
Lemma str_split_comma_join (es : list string) :
  Forall (fun e => has_char "," e = false) es ->
  es <> [] ->
  str_split "," (str_join ", " es)
  = match es with
    | [] => []
    | e :: rest => e :: map (append " ") rest
    end.
Proof.
  intros Hall. induction Hall as [|e es He Hes IH]; [congruence|]. intros _.
  destruct es as [|e' es].
  - now apply str_split_no_sep.
  - rewrite str_join_cons.
    change (e ++ ", " ++ str_join ", " (e' :: es))
      with (e ++ String "," (String " " (str_join ", " (e' :: es)))).
    rewrite str_split_app_sep, (str_split_no_sep "," e He).
    rewrite str_split_cons_other by reflexivity.
    rewrite IH by discriminate. reflexivity.
Qed.

Lemma param_fragments_without (line : string) :
  Forall (fun f => has_char "," f = false /\ has_char "(" f = false
                   /\ has_char ")" f = false)
         (param_fragments line).
Proof.
  unfold param_fragments.
  set (right_part := last (str_split "(" line) EmptyString).
  set (all_params := hd EmptyString (str_split ")" right_part)).
  assert (Hopen : has_char "(" all_params = false).
  { pose proof (str_split_pieces_without "(" ")" right_part
                  (str_split_last_no_sep "(" line)) as Hall.
    subst all_params. destruct (str_split ")" right_part); [reflexivity|].
    now inversion Hall. }
  assert (Hclose : has_char ")" all_params = false)
    by apply str_split_hd_no_sep.
  pose proof (str_split_pieces "," all_params) as H1.
  pose proof (str_split_pieces_without "(" "," all_params Hopen) as H2.
  pose proof (str_split_pieces_without ")" "," all_params Hclose) as H3.
  rewrite Forall_forall in *. intros f Hin. auto.
Qed.

Lemma param_fragments_plain (s : string) :
  has_char "(" s = false -> has_char ")" s = false ->
  param_fragments s = str_split "," s.
Proof.
  intros Hopen Hclose. unfold param_fragments.
  rewrite (str_split_no_sep "(" s Hopen). cbn [last].
  rewrite (str_split_no_sep ")" s Hclose). reflexivity.
Qed.

Lemma canonical_string_split (fragments : list string) :
  fragments <> [] ->
  Forall (fun f => has_char "," f = false /\ has_char "(" f = false
                   /\ has_char ")" f = false) fragments ->
  let canonical :=
    str_join ", "
      (map FunctionParameter.get_full_expression
           (map parse_parameter fragments)) in
  has_char "(" canonical = false /\
  has_char ")" canonical = false /\
  map parse_parameter (str_split "," canonical)
  = reparsed_parameters (map parse_parameter fragments).
Proof.
  intros Hne Hall. cbv zeta.
  set (es := map FunctionParameter.get_full_expression
               (map parse_parameter fragments)).
  assert (Hes : forall c, Ascii.eqb " " c = false ->
                   Forall (fun f => has_char c f = false) fragments ->
                   Forall (fun e => has_char c e = false) es).
  { intros c Hc Hf. subst es. rewrite map_map. apply Forall_map.
    eapply Forall_impl; [|exact Hf]. intros f. now apply full_expression_without. }
  assert (Hcomma : Forall (fun e => has_char "," e = false) es).
  { apply Hes; [reflexivity|].
    eapply Forall_impl; [|exact Hall]. now intros f (H1 & H2 & H3). }
  assert (Hopen : Forall (fun e => has_char "(" e = false) es).
  { apply Hes; [reflexivity|].
    eapply Forall_impl; [|exact Hall]. now intros f (H1 & H2 & H3). }
  assert (Hclose : Forall (fun e => has_char ")" e = false) es).
  { apply Hes; [reflexivity|].
    eapply Forall_impl; [|exact Hall]. now intros f (H1 & H2 & H3). }
  split; [apply str_join_without; [reflexivity | assumption]|].
  split; [apply str_join_without; [reflexivity | assumption]|].
  rewrite str_split_comma_join; [|assumption|].
  - subst es. destruct fragments as [|f fs]; [congruence|].
    cbn [map reparsed_parameters]. rewrite parse_parameter_roundtrip. f_equal.
    rewrite !map_map. apply map_ext. intros g. apply parse_parameter_indented.
  - subst es. destruct fragments; [congruence | discriminate].
Qed.

Lemma last_app_nonempty {A : Type} (l l' : list A) (d : A) :
  l' <> [] -> last (l ++ l') d = last l' d.
Proof.
  intros Hne. destruct (exists_last Hne) as [front [x ->]].
  now rewrite app_assoc, !last_last.
Qed.

(** The parameter list of a line that ends in a parenthesised text. *)
Lemma param_fragments_wrapped (prefix params suffix : string) :
  has_char "(" params = false -> has_char ")" params = false ->
  has_char "(" suffix = false ->
  param_fragments (prefix ++ "(" ++ params ++ ")" ++ suffix)
  = str_split "," params.
Proof.
  intros Hopen Hclose Hsuffix. unfold param_fragments.
  change (prefix ++ "(" ++ params ++ ")" ++ suffix)
    with (prefix ++ String "(" (params ++ String ")" suffix)).
  rewrite str_split_app_sep, last_app_nonempty by apply str_split_nonempty.
  rewrite (str_split_no_sep "(" (params ++ String ")" suffix)).
  - cbn [last]. rewrite str_split_app_sep, (str_split_no_sep ")" params Hclose).
    reflexivity.
  - rewrite has_char_app, Hopen. cbn [has_char orb Ascii.eqb Bool.eqb].
    exact Hsuffix.
Qed.

(** A line made of a return type, a name without a space, and a
    parenthesised parameter text parses to these three. *)
Lemma parse_prototype_declaration (ret_string name params suffix : string) :
  has_char "(" ret_string = false -> has_char "(" name = false ->
  has_char " " name = false ->
  has_char "(" params = false -> has_char ")" params = false ->
  has_char "(" suffix = false ->
  parse_prototype
    (ret_string ++ " " ++ name ++ "(" ++ params ++ ")" ++ suffix)
  = FunctionPrototype.mk (map parse_parameter (str_split "," params))
                         (Type_.init ret_string) name.
Proof.
  intros Hret Hname Hspace Hopen Hclose Hsuffix.
  assert (Hleft : has_char "(" (ret_string ++ " " ++ name) = false).
  { rewrite !has_char_app, Hret, Hname. reflexivity. }
  replace (ret_string ++ " " ++ name ++ "(" ++ params ++ ")" ++ suffix)
    with ((ret_string ++ " " ++ name) ++ "(" ++ params ++ ")" ++ suffix)
    by now rewrite !append_assoc.
  unfold parse_prototype.
  rewrite param_fragments_wrapped by assumption.
  change ((ret_string ++ " " ++ name) ++ "(" ++ params ++ ")" ++ suffix)
    with ((ret_string ++ " " ++ name) ++ String "(" (params ++ ")" ++ suffix)).
  rewrite str_split_app_sep, (str_split_no_sep "(" _ Hleft).
  cbn [app hd].
  change (ret_string ++ " " ++ name) with (ret_string ++ String " " name).
  rewrite str_split_app_sep, (str_split_no_sep " " name Hspace).
  now rewrite removelast_last, last_last, str_join_split.
Qed.

Lemma reparsed_parameters_names (ps : list FunctionParameter.t) :
  map FunctionParameter.name (reparsed_parameters ps)
  = map FunctionParameter.name ps.
Proof.
  destruct ps as [|p ps]; [reflexivity|].
  cbn [reparsed_parameters map]. f_equal.
  rewrite map_map. reflexivity.
Qed.

(** The return type and the name of a parsed line hold no parenthesis, and
    the name no space. *)
Lemma parse_prototype_head_plain (line : string) :
  let pt := parse_prototype line in
  has_char "(" (Type_.type_string (FunctionPrototype.ret pt)) = false /\
  has_char "(" (FunctionPrototype.function_name pt) = false /\
  has_char " " (FunctionPrototype.function_name pt) = false.
Proof.
  cbv zeta.
  cbn [parse_prototype FunctionPrototype.ret FunctionPrototype.function_name
       Type_.init Type_.type_string].
  pose proof (str_split_pieces_without "(" " " _ (str_split_hd_no_sep "(" line))
    as Hall.
  split; [|split].
  - apply str_join_without; [reflexivity | now apply Forall_removelast].
  - now apply Forall_last.
  - apply str_split_last_no_sep.
Qed.

(** C3, as the code has it. For every line, re-parsing the canonical
    parameter string of its prototype never raises and gives the same names
    in the same order; the first parameter is the original one, and every
    later parameter has the original type string with one more space in
    front. Re-parsing the whole declaration that the generator writes for
    the prototype gives the same return type, the same name and the same
    parameters as re-parsing the canonical string alone. *)
Theorem reparse_canonical_parameters (line : string) :
  exists pt pt' pt'',
    FunctionPrototype.init line = Ok pt /\
    FunctionPrototype.init (FunctionPrototype.get_string_of_parameters pt)
    = Ok pt' /\
    List.length (FunctionPrototype.parameters pt')
    = List.length (FunctionPrototype.parameters pt) /\
    map FunctionParameter.name (FunctionPrototype.parameters pt')
    = map FunctionParameter.name (FunctionPrototype.parameters pt) /\
    FunctionPrototype.parameters pt'
    = reparsed_parameters (FunctionPrototype.parameters pt) /\
    FunctionPrototype.init (FunctionPrototype.generate_function_declaration pt)
    = Ok pt'' /\
    pt'' = FunctionPrototype.mk
             (reparsed_parameters (FunctionPrototype.parameters pt))
             (FunctionPrototype.ret pt) (FunctionPrototype.function_name pt).
Proof.
  set (pt := parse_prototype line).
  destruct (canonical_string_split (param_fragments line)
              (param_fragments_nonempty line) (param_fragments_without line))
    as (Hopen & Hclose & Hsplit).
  fold (FunctionPrototype.get_string_of_parameters pt) in Hopen, Hclose, Hsplit.
  change (map parse_parameter (param_fragments line))
    with (FunctionPrototype.parameters pt) in Hsplit.
  assert (Hparams :
    FunctionPrototype.parameters
      (parse_prototype (FunctionPrototype.get_string_of_parameters pt))
    = reparsed_parameters (FunctionPrototype.parameters pt)).
  { cbn [parse_prototype FunctionPrototype.parameters].
    now rewrite param_fragments_plain. }
  exists pt, (parse_prototype (FunctionPrototype.get_string_of_parameters pt)).
  eexists.
  split; [apply FunctionPrototype_init_total|].
  split; [apply FunctionPrototype_init_total|].
  split; [|split; [|split; [exact Hparams|]]].
  - rewrite <- (length_map FunctionParameter.name), Hparams.
    now rewrite reparsed_parameters_names, length_map.
  - rewrite Hparams. apply reparsed_parameters_names.
  - split; [apply FunctionPrototype_init_total|].
    destruct (parse_prototype_head_plain line) as (Hret & Hname & Hspace).
    fold pt in Hret, Hname, Hspace.
    unfold FunctionPrototype.generate_function_declaration.
    change (");" ++ LF) with (")" ++ ";" ++ LF).
    rewrite parse_prototype_declaration by (assumption || reflexivity).
    f_equal. exact Hsplit.
Qed.

(** C3, as the claim has it, fails on the prototype of [ibv_rereg_mr],
    written with or without a space after the commas: the type strings of
    the re-parsed parameters are not the original ones. *)
Lemma reparse_changes_type_strings :
  (exists pt pt',
      FunctionPrototype.init
        "int ibv_rereg_mr(struct ibv_mr * mr, int flags, struct ibv_pd * pd)"
      = Ok pt /\
      FunctionPrototype.init (FunctionPrototype.get_string_of_parameters pt)
      = Ok pt' /\
      FunctionPrototype.get_parameter_types pt
      = ["struct ibv_mr *"; " int"; " struct ibv_pd *"] /\
      FunctionPrototype.get_parameter_types pt'
      = ["struct ibv_mr *"; "  int"; "  struct ibv_pd *"] /\
      FunctionPrototype.get_parameter_types pt'
      <> FunctionPrototype.get_parameter_types pt /\
      FunctionPrototype.parameters pt' <> FunctionPrototype.parameters pt) /\
  (exists pt pt',
      FunctionPrototype.init
        "int ibv_rereg_mr(struct ibv_mr * mr,int flags,struct ibv_pd * pd)"
      = Ok pt /\
      FunctionPrototype.init (FunctionPrototype.get_string_of_parameters pt)
      = Ok pt' /\
      FunctionPrototype.get_parameter_types pt
      = ["struct ibv_mr *"; "int"; "struct ibv_pd *"] /\
      FunctionPrototype.get_parameter_types pt'
      = ["struct ibv_mr *"; " int"; " struct ibv_pd *"] /\
      FunctionPrototype.get_parameter_types pt'
      <> FunctionPrototype.get_parameter_types pt /\
      FunctionPrototype.parameters pt' <> FunctionPrototype.parameters pt).
Proof.
  split; eexists; eexists;
    (split; [reflexivity|]); (split; [reflexivity|]);
    repeat split; try reflexivity; discriminate.
Qed.

(** ** Hexadecimal literals *)

Lemma hex_digit_value_digit (d : N) :
  (d < 16)%N -> hex_digit_value (hex_digit d) = d.
Proof.
  intros Hd. unfold hex_digit_value, hex_digit.
  destruct (d <? 10)%N eqn:Hten.
  - apply N.ltb_lt in Hten.
    rewrite N_ascii_embedding by lia.
    replace (48 + d <? 58)%N with true by (symmetry; apply N.ltb_lt; lia).
    lia.
  - apply N.ltb_ge in Hten.
    rewrite N_ascii_embedding by lia.
    replace (55 + d <? 58)%N with false by (symmetry; apply N.ltb_ge; lia).
    lia.
Qed.

Lemma hex_digit_not_minus (d : N) :
  (d < 16)%N -> hex_digit d <> "-"%char.
Proof.
  intros Hd Heq. apply (f_equal N_of_ascii) in Heq.
  unfold hex_digit in Heq.
  change (N_of_ascii "-") with 45%N in Heq.
  destruct (d <? 10)%N; rewrite N_ascii_embedding in Heq by lia; lia.
Qed.

Lemma hex_loop_acc (fuel : nat) (n : N) (acc : string) :
  hex_loop fuel n acc = hex_loop fuel n EmptyString ++ acc.
Proof.
  revert n acc. induction fuel as [|fuel IH]; intros n acc; [reflexivity|].
  cbn [hex_loop]. destruct (n / 16 =? 0)%N; [reflexivity|].
  rewrite IH.
  rewrite (IH (n / 16)%N (String (hex_digit (n mod 16)) EmptyString)).
  now rewrite append_assoc.
Qed.

Lemma hex_value_from_app (a b : string) (acc : N) :
  hex_value_from (a ++ b) acc = hex_value_from b (hex_value_from a acc).
Proof.
  revert acc. induction a as [|c a IH]; intros acc; [reflexivity|].
  cbn [append hex_value_from]. apply IH.
Qed.

Lemma log2_div16 (n : N) :
  (n / 16 <> 0)%N -> (N.log2 (n / 16) + 4 = N.log2 n)%N.
Proof.
  intros Hq.
  assert (H16 : (16 <= n)%N).
  { destruct (N.lt_ge_cases n 16) as [Hlt|Hge]; [|exact Hge].
    rewrite N.div_small in Hq by exact Hlt. congruence. }
  change 16%N with (2 ^ 4)%N. rewrite <- N.shiftr_div_pow2, N.log2_shiftr.
  assert (4 <= N.log2 n)%N.
  { change 4%N with (N.log2 16). now apply N.log2_le_mono. }
  lia.
Qed.

Lemma hex_value_loop (fuel : nat) (n : N) :
  (N.to_nat (N.log2 n) < fuel)%nat ->
  hex_value (hex_loop fuel n EmptyString) = n.
Proof.
  revert n. induction fuel as [|fuel IH]; intros n Hfuel; [lia|].
  cbn [hex_loop].
  assert (Hmod : (n mod 16 < 16)%N) by (apply N.mod_lt; discriminate).
  destruct (n / 16 =? 0)%N eqn:Hq.
  - apply N.eqb_eq in Hq.
    unfold hex_value. cbn [hex_value_from].
    rewrite hex_digit_value_digit by exact Hmod.
    pose proof (N.div_mod n 16 ltac:(discriminate)) as Hdm. lia.
  - apply N.eqb_neq in Hq.
    rewrite hex_loop_acc. unfold hex_value. rewrite hex_value_from_app.
    fold (hex_value (hex_loop fuel (n / 16) EmptyString)).
    rewrite IH.
    + cbn [hex_value_from]. rewrite hex_digit_value_digit by exact Hmod.
      pose proof (N.div_mod n 16 ltac:(discriminate)) as Hdm. lia.
    + pose proof (log2_div16 n Hq). lia.
Qed.

Lemma hex_value_of_N (n : N) : hex_value (hex_of_N n) = n.
Proof. apply hex_value_loop. lia. Qed.

Lemma hex_loop_head (fuel : nat) (n : N) (acc : string) :
  exists c rest, hex_loop (S fuel) n acc = String c rest /\ c <> "-"%char.
Proof.
  revert n acc. induction fuel as [|fuel IH]; intros n acc.
  - exists (hex_digit (n mod 16)), acc. split.
    + cbn [hex_loop]. now destruct (n / 16 =? 0)%N.
    + apply hex_digit_not_minus, N.mod_lt. discriminate.
  - change (hex_loop (S (S fuel)) n acc)
      with (if (n / 16 =? 0)%N
            then String (hex_digit (n mod 16)) acc
            else hex_loop (S fuel) (n / 16)
                   (String (hex_digit (n mod 16)) acc)).
    destruct (n / 16 =? 0)%N; [|apply IH].
    exists (hex_digit (n mod 16)), acc. split; [reflexivity|].
    apply hex_digit_not_minus, N.mod_lt. discriminate.
Qed.

Lemma hex_of_N_head (n : N) :
  exists c rest, hex_of_N n = String c rest /\ c <> "-"%char.
Proof. apply hex_loop_head. Qed.

(** The literal that [format(num, "X")] writes denotes [num]. *)
Lemma parse_X_format_X (num : Z) : parse_X (format_X num) = num.
Proof.
  unfold format_X. destruct (num <? 0)%Z eqn:Hneg.
  - apply Z.ltb_lt in Hneg. cbn [append parse_X].
    rewrite hex_value_of_N. lia.
  - apply Z.ltb_ge in Hneg.
    destruct (hex_of_N_head (Z.to_N num)) as [c [rest [Heq Hc]]].
    assert (Hval : Z.of_N (hex_value (hex_of_N (Z.to_N num))) = num).
    { rewrite hex_value_of_N. lia. }
    rewrite Heq in *. unfold parse_X.
    destruct c as [b0 b1 b2 b3 b4 b5 b6 b7].
    destruct b0, b1, b2, b3, b4, b5, b6, b7; try exact Hval.
    now contradiction Hc.
Qed.


(** ** The port tables *)

Lemma fold_left_ext {A S : Type} (f g : S -> A -> S) (l : list A) (s : S) :
  (forall s x, f s x = g s x) -> fold_left f l s = fold_left g l s.
Proof.
  intros Hfg. revert s. induction l as [|x l IH]; intros s; [reflexivity|].
  cbn [fold_left]. now rewrite Hfg, IH.
Qed.

Lemma enumerate_from (A : Type) (l : list A) (start : Z) (k : nat) :
  enumerate l (start + Z.of_nat k)
  = map (fun '(i, x) => ((start + Z.of_nat i)%Z, x))
        (combine (seq k (List.length l)) l).
Proof.
  revert k. induction l as [|x l IH]; intros k; [reflexivity|].
  cbn [enumerate List.length seq combine map]. f_equal.
  replace (start + Z.of_nat k + 1)%Z with (start + Z.of_nat (S k))%Z by lia.
  apply IH.
Qed.

Lemma enumerate_codes (A : Type) (l : list A) (start : Z) :
  enumerate l start
  = map (fun '(i, x) => ((start + Z.of_nat i)%Z, x))
        (combine (seq 0 (List.length l)) l).
Proof.
  rewrite <- enumerate_from. f_equal. lia.
Qed.

Lemma enumerate_bindings (base : Z) (pts : list FunctionPrototype.t) :
  map (fun '(num, pt) => (FunctionPrototype.get_port_name pt, num))
      (enumerate pts base)
  = tl (spec_port_table base pts).
Proof.
  rewrite enumerate_codes. cbn [spec_port_table tl].
  rewrite map_map. apply map_ext. now intros [i pt].
Qed.

Lemma enumerate_entries (entry : string * Z -> string) (base : Z)
  (pts : list FunctionPrototype.t) :
  map (fun x => entry (FunctionPrototype.get_port_name (snd x), fst x))
      (enumerate pts base)
  = map entry (tl (spec_port_table base pts)).
Proof.
  rewrite <- enumerate_bindings, map_map. apply map_ext. now intros [num pt].
Qed.

Lemma enum_entry_app (binding : string * Z) (rest : string) :
  enum_entry binding ++ rest
  = TAB ++ fst binding ++ " = 0x" ++ format_X (snd binding) ++ "," ++ LF ++ rest.
Proof. unfold enum_entry. now rewrite !append_assoc. Qed.

Lemma macro_entry_app (binding : string * Z) (rest : string) :
  macro_entry binding ++ rest
  = "#define " ++ fst binding ++ " 0x" ++ format_X (snd binding) ++ LF ++ rest.
Proof. unfold macro_entry. now rewrite !append_assoc. Qed.

Lemma generate_port_enum_table (base : Z) (pts : list FunctionPrototype.t) :
  generate_port_enum_from base pts
  = ("typedef enum {" ++ LF)
      ++ str_concat (map enum_entry (spec_port_table base pts))
      ++ "} uhyve_ibv_t;".
Proof.
  change (spec_port_table base pts)
    with ((CONTROL_PORT_NAME, (base - 1)%Z) :: tl (spec_port_table base pts)).
  cbn [map str_concat].
  unfold generate_port_enum_from.
  rewrite (fold_left_ext _
             (fun code x =>
                code ++ enum_entry (FunctionPrototype.get_port_name (snd x), fst x)))
    by (now intros code [num pt]).
  rewrite fold_left_append, enumerate_entries.
  rewrite enum_entry_app, !append_assoc. reflexivity.
Qed.

Lemma generate_port_macros_table (base : Z) (pts : list FunctionPrototype.t) :
  generate_port_macros_from base pts
  = str_concat (map macro_entry (spec_port_table base pts)).
Proof.
  change (spec_port_table base pts)
    with ((CONTROL_PORT_NAME, (base - 1)%Z) :: tl (spec_port_table base pts)).
  cbn [map str_concat].
  unfold generate_port_macros_from.
  rewrite (fold_left_ext _
             (fun code x =>
                code ++ macro_entry (FunctionPrototype.get_port_name (snd x), fst x)))
    by (now intros code [num pt]).
  rewrite fold_left_append, enumerate_entries.
  rewrite macro_entry_app, !append_assoc. reflexivity.
Qed.

Lemma indexed_names (base : Z) (pts : list FunctionPrototype.t) (k : nat) :
  map fst
      (map (fun '(i, pt) =>
              (FunctionPrototype.get_port_name pt, (base + Z.of_nat i)%Z))
           (combine (seq k (List.length pts)) pts))
  = map FunctionPrototype.get_port_name pts.
Proof.
  revert k. induction pts as [|pt pts IH]; intros k; [reflexivity|].
  cbn [List.length seq combine map fst]. f_equal. apply IH.
Qed.

Lemma indexed_codes (base : Z) (pts : list FunctionPrototype.t) (k : nat) :
  map snd
      (map (fun '(i, pt) =>
              (FunctionPrototype.get_port_name pt, (base + Z.of_nat i)%Z))
           (combine (seq k (List.length pts)) pts))
  = map (fun i => (base + Z.of_nat i)%Z) (seq k (List.length pts)).
Proof.
  revert k. induction pts as [|pt pts IH]; intros k; [reflexivity|].
  cbn [List.length seq combine map snd]. f_equal. apply IH.
Qed.

(** C4. The loop of the port enum pairs the prototype at position [i] with
    the code [base + i]; the emitted enum is the reserved control entry with
    the code [base - 1] followed by one entry per prototype with these codes,
    in input order; every emitted literal reads back as its code; and with
    the base 0x610 three prototypes named f1, f2, f3 get 0x610, 0x611, 0x612
    after the reserved 0x60F. *)
Theorem port_codes_dense_from_base (base : Z) (pts : list FunctionPrototype.t) :
  enumerate pts base
  = map (fun '(i, pt) => ((base + Z.of_nat i)%Z, pt))
        (combine (seq 0 (List.length pts)) pts) /\
  generate_port_enum_from base pts
  = ("typedef enum {" ++ LF)
      ++ str_concat (map enum_entry (spec_port_table base pts))
      ++ "} uhyve_ibv_t;" /\
  map fst (spec_port_table base pts)
  = CONTROL_PORT_NAME :: map FunctionPrototype.get_port_name pts /\
  map snd (spec_port_table base pts)
  = (base - 1)%Z :: map (fun i => (base + Z.of_nat i)%Z) (seq 0 (List.length pts)) /\
  (forall code, parse_X (format_X code) = code) /\
  (forall p1 r1 p2 r2 p3 r3,
      let f1 := FunctionPrototype.mk p1 r1 "f1" in
      let f2 := FunctionPrototype.mk p2 r2 "f2" in
      let f3 := FunctionPrototype.mk p3 r3 "f3" in
      map snd (spec_port_table PORT_NUMBER_START [f1; f2; f3])
      = [0x60F; 0x610; 0x611; 0x612]%Z /\
      generate_port_enum [f1; f2; f3]
      = "typedef enum {" ++ LF
          ++ TAB ++ "UHYVE_PORT_SET_IB_POOL_ADDR = 0x60F," ++ LF
          ++ TAB ++ "UHYVE_PORT_F1 = 0x610," ++ LF
          ++ TAB ++ "UHYVE_PORT_F2 = 0x611," ++ LF
          ++ TAB ++ "UHYVE_PORT_F3 = 0x612," ++ LF
          ++ "} uhyve_ibv_t;").
Proof.
  split; [apply enumerate_codes|].
  split; [apply generate_port_enum_table|].
  split; [|split; [|split]].
  - unfold spec_port_table. cbn [map fst]. f_equal. apply indexed_names.
  - unfold spec_port_table. cbn [map snd]. f_equal. apply indexed_codes.
  - apply parse_X_format_X.
  - intros. split; reflexivity.
Qed.

(** C9. The port enum and the port macros are two renderings of one table
    of names and codes, the reserved control entry first and the prototypes
    after it in input order: the enum has one enumerator per entry of the
    table and the macros one definition per entry, each with the name and
    the code of that entry, and a literal stands for one code only. *)
Theorem port_enum_and_macros_same_table
  (base : Z) (pts : list FunctionPrototype.t) :
  let table := spec_port_table base pts in
  generate_port_enum_from base pts
  = ("typedef enum {" ++ LF) ++ str_concat (map enum_entry table)
      ++ "} uhyve_ibv_t;" /\
  generate_port_macros_from base pts = str_concat (map macro_entry table) /\
  List.length table = S (List.length pts) /\
  hd_error table = Some (CONTROL_PORT_NAME, (base - 1)%Z) /\
  (forall name code,
      enum_entry (name, code)
      = TAB ++ name ++ " = 0x" ++ format_X code ++ "," ++ LF) /\
  (forall name code,
      macro_entry (name, code)
      = "#define " ++ name ++ " 0x" ++ format_X code ++ LF) /\
  (forall code, parse_X (format_X code) = code).
Proof.
  cbv zeta.
  split; [apply generate_port_enum_table|].
  split; [apply generate_port_macros_table|].
  split; [|repeat split; try reflexivity; apply parse_X_format_X].
  unfold spec_port_table. cbn [List.length]. f_equal.
  rewrite length_map, length_combine, length_seq. apply Nat.min_id.
Qed.

(** ** The record type *)

Lemma generate_args_struct_text (pt : FunctionPrototype.t) :
  FunctionPrototype.generate_args_struct pt
  = ("typedef struct {" ++ LF)
      ++ (TAB ++ "// Parameters:" ++ LF)
      ++ str_concat (map struct_field (FunctionPrototype.parameters pt))
      ++ (if Type_.is_void (FunctionPrototype.ret pt)
          then EmptyString else ret_field (FunctionPrototype.ret pt))
      ++ "} __attribute__((packed)) "
      ++ FunctionPrototype.get_args_struct_name pt ++ ";" ++ LF ++ LF.
Proof.
  unfold FunctionPrototype.generate_args_struct.
  rewrite or_empty_id.
  rewrite (fold_left_ext _ (fun code param => code ++ struct_field param))
    by reflexivity.
  rewrite fold_left_append.
  destruct (Type_.is_void (FunctionPrototype.ret pt)); cbn [negb].
  - now rewrite !append_assoc.
  - unfold ret_field. now rewrite !append_assoc.
Qed.

(** C5. The record text is the opening, one field per parameter in the order
    of the parameter list, the [ret] field with the return type exactly when
    the return type is not void, and the closing with the packed attribute
    and the record name; the prototype of [ibv_rereg_mr] gives the fields
    mr, flags, pd and ret, and that of [ibv_ack_async_event] no [ret]. *)
Theorem record_fields_in_parameter_order (pt : FunctionPrototype.t) :
  FunctionPrototype.generate_args_struct pt
  = ("typedef struct {" ++ LF)
      ++ (TAB ++ "// Parameters:" ++ LF)
      ++ str_concat (map struct_field (FunctionPrototype.parameters pt))
      ++ (if Type_.is_void (FunctionPrototype.ret pt)
          then EmptyString else ret_field (FunctionPrototype.ret pt))
      ++ "} __attribute__((packed)) "
      ++ FunctionPrototype.get_args_struct_name pt ++ ";" ++ LF ++ LF /\
  (forall param,
      struct_field param
      = TAB ++ Type_.type_string (FunctionParameter.type param) ++ " "
            ++ FunctionParameter.name param ++ ";" ++ LF) /\
  (exists pt,
      FunctionPrototype.init
        "int ibv_rereg_mr(struct ibv_mr * mr, int flags, struct ibv_pd * pd)"
      = Ok pt /\
      FunctionPrototype.generate_args_struct pt
      = "typedef struct {" ++ LF
          ++ TAB ++ "// Parameters:" ++ LF
          ++ TAB ++ "struct ibv_mr * mr;" ++ LF
          ++ TAB ++ " int flags;" ++ LF
          ++ TAB ++ " struct ibv_pd * pd;" ++ LF
          ++ TAB ++ "// Return value:" ++ LF
          ++ TAB ++ "int ret;" ++ LF
          ++ "} __attribute__((packed)) uhyve_ibv_rereg_mr_t;" ++ LF ++ LF) /\
  (exists pt,
      FunctionPrototype.init
        "void ibv_ack_async_event(struct ibv_async_event * event)" = Ok pt /\
      FunctionPrototype.generate_args_struct pt
      = "typedef struct {" ++ LF
          ++ TAB ++ "// Parameters:" ++ LF
          ++ TAB ++ "struct ibv_async_event * event;" ++ LF
          ++ "} __attribute__((packed)) uhyve_ibv_ack_async_event_t;"
          ++ LF ++ LF).
Proof.
  split; [apply generate_args_struct_text|].
  split; [|split; eexists; split; reflexivity].
  intros param. unfold struct_field, FunctionParameter.get_full_expression.
  now rewrite !append_assoc.
Qed.

(** ** The guest stub *)

Lemma is_pointer_pointer_ends (ty : Type_.t) :
  Type_.type_components ty <> [] ->
  Type_.is_pointer_pointer ty = Ok (ends_in_double_star ty).
Proof.
  intros Hne. unfold Type_.is_pointer_pointer, ends_in_double_star.
  now rewrite (getitem_last EmptyString) by exact Hne.
Qed.

Lemma kernel_function_step_statement (code : string) (p : FunctionParameter.t) :
  Type_.type_components (FunctionParameter.type p) <> [] ->
  kernel_function_step code p = Ok (code ++ stub_statement p).
Proof.
  intros Hne. unfold kernel_function_step, FunctionParameter.is_pointer_pointer.
  rewrite is_pointer_pointer_ends by exact Hne. cbn [bind].
  unfold stub_statement.
  now destruct (ends_in_double_star (FunctionParameter.type p)).
Qed.

Lemma kernel_function_loop (params : list FunctionParameter.t) (code : string) :
  Forall (fun p => Type_.type_components (FunctionParameter.type p) <> [])
         params ->
  foldM kernel_function_step params code
  = Ok (code ++ str_concat (map stub_statement params)).
Proof.
  intros Hall. revert code.
  induction Hall as [|p params Hp Hparams IH]; intros code.
  - cbn [foldM map str_concat]. now rewrite append_nil_r.
  - cbn [foldM map str_concat].
    rewrite kernel_function_step_statement by exact Hp. cbn [bind].
    now rewrite IH, append_assoc.
Qed.

Lemma generate_kernel_function_text (pt : FunctionPrototype.t) :
  Forall (fun p => Type_.type_components (FunctionParameter.type p) <> [])
         (FunctionPrototype.parameters pt) ->
  generate_kernel_function pt = Ok (stub_text pt).
Proof.
  intros Hall. unfold generate_kernel_function.
  rewrite or_empty_id, kernel_function_loop by exact Hall.
  cbn [bind]. f_equal. unfold stub_text.
  destruct (Type_.is_void (FunctionPrototype.ret pt)); cbn [negb].
  - now rewrite !append_assoc.
  - unfold return_statement. now rewrite !append_assoc.
Qed.

Lemma parsed_parameters_have_components (line : string) :
  Forall (fun p => Type_.type_components (FunctionParameter.type p) <> [])
         (FunctionPrototype.parameters (parse_prototype line)).
Proof.
  cbn [parse_prototype FunctionPrototype.parameters].
  apply Forall_map, Forall_forall. intros fragment _.
  apply str_split_nonempty.
Qed.

(** C6. For every line the guest stub of its prototype is emitted without
    an error and is, in this order: the signature, the declaration of the
    record, one statement per parameter in the order of the parameter list
    (the marked placeholder when the type ends in the double star, the copy
    of the parameter into the field of its name otherwise), the exit with
    the port name, the return of [ret] exactly when the return type is not
    void, and the closing brace. The stub of [ibv_ack_async_event], which
    returns void, holds no [return]; a [struct ibv_context **] parameter
    gets the placeholder and no copy. *)
Theorem guest_stub_statements (line : string) :
  (exists pt,
      FunctionPrototype.init line = Ok pt /\
      generate_kernel_function pt = Ok (stub_text pt) /\
      Forall (fun p =>
                FunctionParameter.is_pointer_pointer p
                = Ok (ends_in_double_star (FunctionParameter.type p)))
             (FunctionPrototype.parameters pt)) /\
  (forall param,
      stub_statement param
      = if ends_in_double_star (FunctionParameter.type param)
        then TAB ++ "// TODO: Take care of ** parameter." ++ LF
        else TAB ++ "uhyve_args." ++ FunctionParameter.name param ++ " = "
                 ++ FunctionParameter.name param ++ ";" ++ LF) /\
  (exists pt text,
      FunctionPrototype.init
        "void ibv_ack_async_event(struct ibv_async_event * event)" = Ok pt /\
      generate_kernel_function pt = Ok text /\
      text
      = "void ibv_ack_async_event(struct ibv_async_event * event) {" ++ LF
          ++ TAB ++ "uhyve_ibv_ack_async_event_t uhyve_args;" ++ LF
          ++ TAB ++ "uhyve_args.event = event;" ++ LF
          ++ LF
          ++ TAB ++ "uhyve_send(UHYVE_PORT_IBV_ACK_ASYNC_EVENT, "
          ++ "(unsigned) virt_to_phys((size_t) &uhyve_args));" ++ LF
          ++ "}" ++ LF ++ LF /\
      String.index 0 "return" text = None) /\
  (exists pt,
      FunctionPrototype.init "int f(struct ibv_context ** ctx,int n)" = Ok pt /\
      generate_kernel_function pt
      = Ok ("int f(struct ibv_context ** ctx, int n) {" ++ LF
              ++ TAB ++ "uhyve_f_t uhyve_args;" ++ LF
              ++ TAB ++ "// TODO: Take care of ** parameter." ++ LF
              ++ TAB ++ "uhyve_args.n = n;" ++ LF
              ++ LF
              ++ TAB ++ "uhyve_send(UHYVE_PORT_F, "
              ++ "(unsigned) virt_to_phys((size_t) &uhyve_args));" ++ LF
              ++ LF ++ TAB ++ "return uhyve_args.ret;" ++ LF
              ++ "}" ++ LF ++ LF)).
Proof.
  split; [|split; [|split]].
  - exists (parse_prototype line).
    pose proof (parsed_parameters_have_components line) as Hall.
    split; [apply FunctionPrototype_init_total|].
    split; [now apply generate_kernel_function_text|].
    eapply Forall_impl; [|exact Hall].
    intros p Hp. now apply is_pointer_pointer_ends.
  - intros param. reflexivity.
  - eexists. eexists. repeat split; reflexivity.
  - eexists. split; reflexivity.
Qed.

(** ** Reading the input *)

Lemma file_lines_not_empty (text : string) :
  Forall (fun line => str_bool line = true) (file_lines text).
Proof.
  induction text as [|c text IH]; [constructor|].
  cbn [file_lines]. destruct (Ascii.eqb c (ascii_of_nat 10)).
  - constructor; [reflexivity | exact IH].
  - destruct (file_lines text) as [|l ls]; [now repeat constructor|].
    inversion IH; subst. now constructor.
Qed.

Lemma read_prototypes_loop (lines : list string)
  (prototypes : list FunctionPrototype.t) :
  Forall (fun line => str_bool line = true) lines ->
  foldM
    (fun prototypes line =>
       if str_bool line
       then pt <- FunctionPrototype.init line ;; Ok (prototypes ++ [pt])%list
       else Ok prototypes)
    lines prototypes
  = Ok (prototypes ++ map parse_prototype lines)%list.
Proof.
  intros Hall. revert prototypes.
  induction Hall as [|line lines Hline Hlines IH]; intros prototypes.
  - cbn [foldM map]. now rewrite app_nil_r.
  - cbn [foldM map]. rewrite Hline, FunctionPrototype_init_total. cbn [bind].
    now rewrite IH, <- app_assoc.
Qed.

Lemma read_prototypes_file (text : string) :
  read_prototypes (file_lines text)
  = Ok (map parse_prototype (file_lines text)).
Proof.
  unfold read_prototypes.
  now rewrite read_prototypes_loop by apply file_lines_not_empty.
Qed.

(** C7. Every line of the input is given to the parser, a blank line too,
    since a line comes with its newline and is never the empty string: the
    prototypes read are one per line. A text of three lines whose second one
    is blank gives three prototypes, the second one named by the newline
    alone. *)
Theorem blank_lines_are_parsed :
  (forall text, exists pts,
      read_prototypes (file_lines text) = Ok pts /\
      Forall2 (fun line pt => FunctionPrototype.init line = Ok pt)
              (file_lines text) pts) /\
  let text := "int f(int a)" ++ LF ++ LF ++ "int g(int b)" ++ LF in
  file_lines text = ["int f(int a)" ++ LF; LF; "int g(int b)" ++ LF] /\
  exists pts,
    read_prototypes (file_lines text) = Ok pts /\
    List.length pts = 3%nat /\
    map FunctionPrototype.function_name pts = ["f"; LF; "g"].
Proof.
  split.
  - intros text. exists (map parse_prototype (file_lines text)).
    split; [apply read_prototypes_file|].
    induction (file_lines text) as [|line lines IH]; [constructor|].
    cbn [map]. constructor; [apply FunctionPrototype_init_total | exact IH].
  - cbv zeta. split; [reflexivity|].
    eexists. split; [reflexivity|]. split; reflexivity.
Qed.

(** ** The script: same input, same output *)

Section SameRun.

Context {A B : Type}.

Lemma same_run_bind (W W' W'' : list string) (m : io A) (k : A -> io B) :
  same_run W W' m -> (forall a, same_run W' W'' (k a)) ->
  same_run W W'' (io_bind m k).
Proof.
  intros Hm Hk st1 st2 Hagree. specialize (Hm st1 st2 Hagree).
  unfold io_bind.
  destruct (m st1) as [[a1|e1] s1], (m st2) as [[a2|e2] s2];
    try contradiction; [|exact Hm].
  destruct Hm as [-> Hs]. exact (Hk a2 s1 s2 Hs).
Qed.

Lemma same_run_lift (W : list string) (r : result A) : same_run W W (io_lift r).
Proof.
  intros st1 st2 Hagree. unfold io_lift.
  destruct r; [split; [reflexivity | exact Hagree] | reflexivity].
Qed.

Lemma same_run_weaken (W W1 W2 : list string) (m : io A) :
  incl W2 W1 -> same_run W W1 m -> same_run W W2 m.
Proof.
  intros Hincl Hm st1 st2 Hagree. specialize (Hm st1 st2 Hagree).
  destruct (m st1) as [[a1|e1] s1], (m st2) as [[a2|e2] s2]; try exact Hm.
  destruct Hm as [Ha Hs]. split; [exact Ha|].
  intros p Hp. apply Hs, Hincl, Hp.
Qed.

End SameRun.

Lemma agree_fs_set (W : list string) (path content : string) (st1 st2 : fs) :
  agree W st1 st2 ->
  agree (path :: W) (fs_set path content st1) (fs_set path content st2).
Proof.
  intros Hagree p Hp. unfold fs_set.
  destruct (String.eqb_spec p path) as [_|Hne]; [reflexivity|].
  destruct Hp as [Heq|Hp]; [congruence | now apply Hagree].
Qed.

Lemma same_run_read (W : list string) (path : string) :
  In path W -> same_run W W (read_file path).
Proof.
  intros Hin st1 st2 Hagree. unfold read_file.
  rewrite (Hagree path Hin).
  destruct (st2 path); [split; [reflexivity | exact Hagree] | reflexivity].
Qed.

Lemma same_run_open (W : list string) (path : string) :
  same_run W (path :: W) (open_w path).
Proof.
  intros st1 st2 Hagree. unfold open_w.
  split; [reflexivity | now apply agree_fs_set].
Qed.

Lemma same_run_write (W : list string) (path text : string) :
  In path W -> same_run W W (write path text).
Proof.
  intros Hin st1 st2 Hagree. unfold write.
  rewrite (Hagree path Hin).
  destruct (st2 path) as [content|]; [|reflexivity].
  split; [reflexivity|].
  intros p Hp. apply (agree_fs_set W path _ st1 st2 Hagree). now right.
Qed.

Lemma same_run_for {A : Type} (W : list string) (l : list A)
  (body : A -> io unit) :
  (forall x, same_run W W (body x)) -> same_run W W (io_for l body).
Proof.
  intros Hbody. induction l as [|x l IH]; cbn [io_for].
  - intros st1 st2 Hagree. split; [reflexivity | exact Hagree].
  - eapply same_run_bind; [apply Hbody | intros _; exact IH].
Qed.

Ltac path_in := cbn [In]; tauto.

Ltac same_run_step :=
  first
    [ apply same_run_open
    | apply same_run_write; path_in
    | apply same_run_read; path_in
    | apply same_run_lift
    | apply same_run_for; intros ?
    | eapply same_run_bind; [|intros ?] ].

Lemma main_same_run : same_run [SRC_PATH] GEN_PATHS main.
Proof.
  eapply same_run_weaken; [|unfold main; repeat same_run_step].
  unfold GEN_PATHS. intros p Hp. cbn [In] in *. tauto.
Qed.

(** ** The script: it ends without an exception *)

Section Succeeds.

Context {A B : Type}.

Lemma succeeds_bind (W W' W'' : list string) (m : io A) (k : A -> io B)
  (Q : A -> Prop) (R : B -> Prop) :
  succeeds W W' m Q -> (forall a, Q a -> succeeds W' W'' (k a) R) ->
  succeeds W W'' (io_bind m k) R.
Proof.
  intros Hm Hk st Hst.
  destruct (Hm st Hst) as [a [st' [Hrun [Ha Hst']]]].
  destruct (Hk a Ha st' Hst') as [b [st'' [Hrun' [Hb Hst'']]]].
  exists b, st''. unfold io_bind. rewrite Hrun. auto.
Qed.

End Succeeds.

Lemma present_fs_set (W : list string) (path content : string) (st : fs) :
  present W st -> present (path :: W) (fs_set path content st).
Proof.
  intros Hst p Hp. unfold fs_set.
  destruct (String.eqb_spec p path) as [_|Hne]; [discriminate|].
  destruct Hp as [Heq|Hp]; [congruence | now apply Hst].
Qed.

Lemma succeeds_read (W : list string) (path : string) :
  In path W ->
  forall st, present W st ->
    exists text, st path = Some text /\ read_file path st = (Ok text, st).
Proof.
  intros Hin st Hst. unfold read_file.
  destruct (st path) as [text|] eqn:Hpath; [now exists text|].
  now destruct (Hst path Hin).
Qed.

Lemma succeeds_open (W : list string) (path : string) :
  succeeds W (path :: W) (open_w path) (fun _ => True).
Proof.
  intros st Hst. exists tt, (fs_set path EmptyString st).
  split; [reflexivity|]. split; [exact I | now apply present_fs_set].
Qed.

Lemma succeeds_write (W : list string) (path text : string) :
  In path W -> succeeds W W (write path text) (fun _ => True).
Proof.
  intros Hin st Hst. unfold write.
  destruct (st path) as [content|] eqn:Hpath; [|now destruct (Hst path Hin)].
  exists tt, (fs_set path (content ++ text) st).
  split; [reflexivity|]. split; [exact I|].
  intros p Hp. apply (present_fs_set W path _ st Hst). now right.
Qed.

Lemma succeeds_for {A : Type} (W : list string) (P : A -> Prop) (l : list A)
  (body : A -> io unit) :
  Forall P l ->
  (forall x, P x -> succeeds W W (body x) (fun _ => True)) ->
  succeeds W W (io_for l body) (fun _ => True).
Proof.
  intros Hall Hbody. induction Hall as [|x l Hx Hl IH]; cbn [io_for].
  - intros st Hst. exists tt, st. auto.
  - eapply succeeds_bind; [apply Hbody, Hx | intros _ _; exact IH].
Qed.

Lemma generate_uhyve_function_total (pt : FunctionPrototype.t) :
  exists text, generate_uhyve_function pt = Ok text.
Proof.
  unfold generate_uhyve_function, FunctionPrototype.get_num_parameters.
  destruct (FunctionPrototype.parameters pt) as [|p ps] eqn:Hps.
  - cbn [List.length Nat.ltb Nat.leb bind]. eexists. reflexivity.
  - replace (0 <? List.length (p :: ps))%nat with true by reflexivity.
    rewrite (getitem_last p) by discriminate.
    cbn [bind]. eexists. reflexivity.
Qed.

Lemma parsed_prototypes_have_components (lines : list string) :
  Forall has_components (map parse_prototype lines).
Proof.
  apply Forall_map, Forall_forall. intros line _.
  apply parsed_parameters_have_components.
Qed.

Lemma succeeds_lift_total {A : Type} (W : list string) (r : result A) :
  (exists a, r = Ok a) -> succeeds W W (io_lift r) (fun _ => True).
Proof.
  intros [a ->] st Hst. exists a, st. auto.
Qed.

Ltac succeeds_step :=
  first
    [ apply succeeds_open
    | apply succeeds_write; path_in
    | apply succeeds_lift_total
    | eapply succeeds_bind; [|intros ? ?] ].

Lemma main_succeeds (st : fs) :
  st SRC_PATH <> None -> exists st', main st = (Ok tt, st').
Proof.
  intros Hsrc.
  assert (Hst : present [SRC_PATH] st).
  { intros p [<-|[]]. exact Hsrc. }
  destruct (succeeds_read [SRC_PATH] SRC_PATH (or_introl eq_refl) st Hst)
    as [text [Htext Hread]].
  assert (Hloops : forall W (body : FunctionPrototype.t -> io unit),
             (forall pt, has_components pt ->
                         succeeds W W (body pt) (fun _ => True)) ->
             succeeds W W
               (io_for (map parse_prototype (file_lines text)) body)
               (fun _ => True)).
  { intros W body Hbody.
    eapply succeeds_for; [apply parsed_prototypes_have_components | exact Hbody]. }
  unfold main, io_bind at 1. rewrite Hread.
  unfold io_bind at 1, io_lift at 1. rewrite read_prototypes_file.
  match goal with
  | |- exists st', ?m st = _ =>
      cut (exists W', succeeds [SRC_PATH] W' m (fun _ => True))
  end.
  - intros [W' Hm]. destruct (Hm st Hst) as [[] [st' [Hrun _]]].
    now exists st'.
  - eexists.
    repeat first [ apply Hloops; intros ? ? | succeeds_step ].
    + apply generate_uhyve_function_total.
    + eexists. now apply generate_kernel_function_text.
Qed.

(** C10. The emitters give equal texts on equal prototype lists and equal
    bases; and two runs of the script that start from any two states of the
    files with the same input text both end without an exception and leave
    the same content in each of the generated files, whatever these files or
    any other one held before. *)
Theorem generation_is_deterministic
  (base1 base2 : Z) (pts1 pts2 : list FunctionPrototype.t)
  (st1 st2 : fs) (text : string) :
  base1 = base2 -> pts1 = pts2 ->
  st1 SRC_PATH = Some text -> st2 SRC_PATH = Some text ->
  emitted base1 pts1 = emitted base2 pts2 /\
  fst (main st1) = Ok tt /\
  fst (main st2) = Ok tt /\
  Forall (fun path => snd (main st1) path = snd (main st2) path) GEN_PATHS.
Proof.
  intros -> -> Hsrc1 Hsrc2.
  split; [reflexivity|].
  assert (Hagree : agree [SRC_PATH] st1 st2).
  { intros p [<-|[]]. congruence. }
  pose proof (main_same_run st1 st2 Hagree) as Hsame.
  destruct (main_succeeds st1) as [st1' Hrun1]; [congruence|].
  destruct (main_succeeds st2) as [st2' Hrun2]; [congruence|].
  rewrite Hrun1, Hrun2 in *. cbn [fst snd].
  destruct Hsame as [_ Hfiles].
  split; [reflexivity|]. split; [reflexivity|].
  apply Forall_forall. exact Hfiles.
Qed.

Lemma generation_is_deterministic_witness :
  let text := "int f(int a)" ++ LF ++ "void g(char * s,struct ibv_pd ** pd)" ++ LF in
  let st1 : fs := fun p => if String.eqb p SRC_PATH then Some text else None in
  let st2 : fs := fs_set KERNEL_GEN_PATH "stale" st1 in
  let pts := [FunctionPrototype.mk [] (Type_.init "void") "f"] in
  emitted PORT_NUMBER_START pts = emitted 0x610 pts /\
  fst (main st1) = Ok tt /\
  fst (main st2) = Ok tt /\
  Forall (fun path => snd (main st1) path = snd (main st2) path) GEN_PATHS.
Proof.
  cbv zeta.
  apply (generation_is_deterministic
           PORT_NUMBER_START 0x610
           [FunctionPrototype.mk [] (Type_.init "void") "f"]
           [FunctionPrototype.mk [] (Type_.init "void") "f"]
           (fun p => if String.eqb p SRC_PATH
                     then Some ("int f(int a)" ++ LF
                                  ++ "void g(char * s,struct ibv_pd ** pd)" ++ LF)
                     else None)
           (fs_set KERNEL_GEN_PATH "stale"
              (fun p => if String.eqb p SRC_PATH
                        then Some ("int f(int a)" ++ LF
                                     ++ "void g(char * s,struct ibv_pd ** pd)" ++ LF)
                        else None))
           ("int f(int a)" ++ LF
              ++ "void g(char * s,struct ibv_pd ** pd)" ++ LF));
    reflexivity.
Defined.

(** ** More on the parser *)

Lemma str_split_length (sep : ascii) (s : string) :
  List.length (str_split sep s) = S (count_char sep s).
Proof.
  induction s as [|c s IH]; [reflexivity|].
  cbn [str_split count_char]. destruct (Ascii.eqb c sep).
  - cbn [List.length]. now rewrite IH.
  - destruct (str_split sep s); [discriminate IH | exact IH].
Qed.

Lemma count_char_has_char (c : ascii) (s : string) :
  has_char c s = true -> (1 <= count_char c s)%nat.
Proof.
  induction s as [|d s IH]; cbn [has_char count_char]; [discriminate|].
  destruct (Ascii.eqb d c); cbn [orb]; [lia | exact IH].
Qed.

Lemma str_split_has_sep (sep : ascii) (s : string) :
  has_char sep s = true ->
  exists front x, front <> [] /\ str_split sep s = (front ++ [x])%list.
Proof.
  intros Hhas.
  pose proof (str_split_length sep s) as Hlen.
  pose proof (count_char_has_char sep s Hhas) as Hcount.
  destruct (exists_last (str_split_nonempty sep s)) as [front [x Heq]].
  exists front, x. split; [|exact Heq].
  intros ->. rewrite Heq in Hlen. cbn in Hlen. lia.
Qed.

Lemma str_join_snoc (sep x : string) (l : list string) :
  l <> [] -> str_join sep (l ++ [x]) = str_join sep l ++ sep ++ x.
Proof.
  induction l as [|y l IH]; [congruence|]. intros _.
  destruct l as [|z l]; [reflexivity|].
  change ((y :: z :: l) ++ [x])%list with (y :: ((z :: l) ++ [x]))%list.
  cbn [app]. rewrite !str_join_cons.
  change (z :: (l ++ [x]))%list with ((z :: l) ++ [x])%list.
  rewrite IH by discriminate. now rewrite !append_assoc.
Qed.

Lemma parse_parameter_full_expression (fragment : string) :
  FunctionParameter.get_full_expression (parse_parameter fragment)
  = if has_char " " fragment then fragment else " " ++ fragment.
Proof.
  unfold FunctionParameter.get_full_expression, parse_parameter.
  cbn [FunctionParameter.type FunctionParameter.name Type_.init
       Type_.type_string].
  destruct (has_char " " fragment) eqn:Hhas.
  - destruct (str_split_has_sep " " fragment Hhas) as [front [x [Hne Heq]]].
    rewrite Heq, removelast_last, last_last.
    rewrite <- (str_join_snoc " " x front Hne), <- Heq.
    apply (str_join_split " ").
  - now rewrite (str_split_no_sep " " fragment Hhas).
Qed.

(** A parameter fragment that holds a space is given back as it is by the
    canonical expression of its parameter; a fragment without a space is
    taken whole as the name, with the empty type string, and its expression
    gets a space in front. The name never holds a space. *)
Theorem fragment_expression_roundtrip (fragment : string) :
  exists p,
    FunctionParameter.init fragment = Ok p /\
    FunctionParameter.get_full_expression p
    = (if has_char " " fragment then fragment else " " ++ fragment) /\
    (if has_char " " fragment then True
     else FunctionParameter.name p = fragment
          /\ Type_.type_string (FunctionParameter.type p) = EmptyString) /\
    has_char " " (FunctionParameter.name p) = false.
Proof.
  exists (parse_parameter fragment).
  split; [apply FunctionParameter_init_total|].
  split; [apply parse_parameter_full_expression|].
  split; [|apply parse_parameter_name_no_space].
  destruct (has_char " " fragment) eqn:Hhas; [exact I|].
  unfold parse_parameter. rewrite (str_split_no_sep " " fragment Hhas).
  split; reflexivity.
Qed.

(** For a line whose last open parenthesis is followed by a parameter text
    without a parenthesis, a closing parenthesis and anything without an
    open parenthesis, the number of parameters is the number of commas of
    the parameter text plus one, whatever stands before the parenthesis. *)
Theorem parameter_count_is_commas_plus_one (prefix params suffix : string) :
  has_char "(" params = false -> has_char ")" params = false ->
  has_char "(" suffix = false ->
  exists pt,
    FunctionPrototype.init (prefix ++ "(" ++ params ++ ")" ++ suffix) = Ok pt /\
    FunctionPrototype.get_num_parameters pt = S (count_char "," params) /\
    List.length (FunctionPrototype.get_parameter_types pt)
    = S (count_char "," params).
Proof.
  intros Hopen Hclose Hsuffix.
  exists (parse_prototype (prefix ++ "(" ++ params ++ ")" ++ suffix)).
  split; [apply FunctionPrototype_init_total|].
  unfold FunctionPrototype.get_num_parameters,
    FunctionPrototype.get_parameter_types.
  cbn [parse_prototype FunctionPrototype.parameters].
  rewrite param_fragments_wrapped by assumption.
  now rewrite !length_map, str_split_length.
Qed.

Lemma parameter_count_is_commas_plus_one_witness :
  exists pt,
    FunctionPrototype.init
      ("int ibv_rereg_mr" ++ "("
         ++ "struct ibv_mr * mr,int flags,struct ibv_pd * pd" ++ ")" ++ LF)
    = Ok pt /\
    FunctionPrototype.get_num_parameters pt
    = S (count_char "," "struct ibv_mr * mr,int flags,struct ibv_pd * pd") /\
    List.length (FunctionPrototype.get_parameter_types pt)
    = S (count_char "," "struct ibv_mr * mr,int flags,struct ibv_pd * pd").
Proof.
  apply (parameter_count_is_commas_plus_one
           "int ibv_rereg_mr"
           "struct ibv_mr * mr,int flags,struct ibv_pd * pd" LF);
    reflexivity.
Defined.

(** A line made of a return type without an open parenthesis, a space, a
    name without a space or an open parenthesis, and a parenthesised
    parameter text without a parenthesis, followed by anything without an
    open parenthesis (a newline, a semicolon), parses to exactly this return
    type, this name and the parameters of the comma-separated fragments. *)
Theorem wellformed_line_parses_to_its_parts
  (ret_string name params suffix : string) :
  has_char "(" ret_string = false -> has_char "(" name = false ->
  has_char " " name = false ->
  has_char "(" params = false -> has_char ")" params = false ->
  has_char "(" suffix = false ->
  exists ps,
    mapM FunctionParameter.init (str_split "," params) = Ok ps /\
    FunctionPrototype.init
      (ret_string ++ " " ++ name ++ "(" ++ params ++ ")" ++ suffix)
    = Ok (FunctionPrototype.mk ps (Type_.init ret_string) name).
Proof.
  intros Hret Hname Hspace Hopen Hclose Hsuffix.
  exists (map parse_parameter (str_split "," params)).
  split.
  - apply mapM_total, FunctionParameter_init_total.
  - rewrite FunctionPrototype_init_total.
    now rewrite parse_prototype_declaration.
Qed.

Lemma wellformed_line_parses_to_its_parts_witness :
  exists ps,
    mapM FunctionParameter.init (str_split "," "struct ibv_qp * qp,int attr_mask")
    = Ok ps /\
    FunctionPrototype.init
      ("const char *" ++ " " ++ "ibv_modify" ++ "("
         ++ "struct ibv_qp * qp,int attr_mask" ++ ")" ++ LF)
    = Ok (FunctionPrototype.mk ps (Type_.init "const char *") "ibv_modify").
Proof.
  apply (wellformed_line_parses_to_its_parts
           "const char *" "ibv_modify" "struct ibv_qp * qp,int attr_mask" LF);
    reflexivity.
Defined.

(** A line without any parenthesis is not refused: the whole line is taken
    both as the return type with the name and as the parameter list. *)
Theorem line_without_parentheses_is_parsed (line : string) :
  has_char "(" line = false -> has_char ")" line = false ->
  exists ps fname,
    mapM FunctionParameter.init (str_split "," line) = Ok ps /\
    getitem (str_split " " line) (-1) = Ok fname /\
    FunctionPrototype.init line
    = Ok (FunctionPrototype.mk ps
            (Type_.init (str_join " " (slice_to (str_split " " line) (-1))))
            fname).
Proof.
  intros Hopen Hclose.
  exists (map parse_parameter (str_split "," line)).
  exists (last (str_split " " line) EmptyString).
  split; [apply mapM_total, FunctionParameter_init_total|].
  split; [apply getitem_last, str_split_nonempty|].
  rewrite FunctionPrototype_init_total, slice_to_removelast.
  unfold parse_prototype.
  rewrite param_fragments_plain by assumption.
  now rewrite (str_split_no_sep "(" line Hopen).
Qed.

Lemma line_without_parentheses_is_parsed_witness :
  exists ps fname,
    mapM FunctionParameter.init (str_split "," "struct ibv_mr;") = Ok ps /\
    getitem (str_split " " "struct ibv_mr;") (-1) = Ok fname /\
    FunctionPrototype.init "struct ibv_mr;"
    = Ok (FunctionPrototype.mk ps
            (Type_.init
               (str_join " " (slice_to (str_split " " "struct ibv_mr;") (-1))))
            fname).
Proof.
  apply (line_without_parentheses_is_parsed "struct ibv_mr;"); reflexivity.
Defined.

(** ** More on the type classifier *)

(** The pointer flags exclude each other, a char array is a pointer, and
    the void type has no other flag: for every type string the five flags
    are computed and satisfy these three relations. *)
Theorem classifier_flags_exclude_each_other (s : string) :
  exists st p pp ca,
    Type_.is_struct (Type_.init s) = Ok st /\
    Type_.is_pointer (Type_.init s) = Ok p /\
    Type_.is_pointer_pointer (Type_.init s) = Ok pp /\
    Type_.is_char_arr (Type_.init s) = Ok ca /\
    p && pp = false /\
    ca && negb p = false /\
    Type_.is_void (Type_.init s) && (st || p || pp || ca) = false.
Proof.
  eexists. eexists. eexists. eexists.
  split; [apply Type_is_struct_init|].
  split; [apply Type_is_pointer_init|].
  split; [apply Type_is_pointer_pointer_init|].
  split; [apply Type_is_char_arr_init|].
  split; [|split].
  - destruct (String.eqb_spec (last (str_split " " s) EmptyString) "*") as [->|_];
      reflexivity.
  - now destruct (String.eqb (last (str_split " " s) EmptyString) "*"),
      (str_in "char" (str_split " " s)).
  - unfold Type_.is_void, Type_.init. cbn [Type_.type_string].
    destruct (String.eqb_spec s "void") as [->|_]; reflexivity.
Qed.

Lemma str_join_leading_empty (l : list string) :
  hd EmptyString (str_split " " (str_join " " (EmptyString :: l))) = EmptyString.
Proof.
  destruct l as [|x l]; [reflexivity|].
  rewrite str_join_cons. reflexivity.
Qed.

(** A fragment that starts with a space, as every fragment after a comma
    followed by a space does, gives a parameter that is never classified as
    a struct, whatever the type written after the space; and a type string
    that starts with a space is neither a struct nor void, while its pointer
    flags are those of the type string without the space. *)
Theorem leading_space_hides_struct (s : string) :
  (exists p,
      FunctionParameter.init (" " ++ s) = Ok p /\
      FunctionParameter.is_struct p = Ok false) /\
  Type_.is_struct (Type_.init (" " ++ s)) = Ok false /\
  Type_.is_void (Type_.init (" " ++ s)) = false /\
  Type_.is_pointer (Type_.init (" " ++ s)) = Type_.is_pointer (Type_.init s) /\
  Type_.is_pointer_pointer (Type_.init (" " ++ s))
  = Type_.is_pointer_pointer (Type_.init s).
Proof.
  assert (Hsplit : str_split " " (" " ++ s) = EmptyString :: str_split " " s)
    by reflexivity.
  assert (Hlast : last (str_split " " (" " ++ s)) EmptyString
                  = last (str_split " " s) EmptyString).
  { rewrite Hsplit. pose proof (str_split_nonempty " " s).
    now destruct (str_split " " s). }
  split; [|split; [|split; [|split]]].
  - exists (parse_parameter (" " ++ s)).
    split; [apply FunctionParameter_init_total|].
    unfold FunctionParameter.is_struct, parse_parameter.
    cbn [FunctionParameter.type]. rewrite Type_is_struct_init, Hsplit.
    pose proof (str_split_nonempty " " s) as Hne.
    destruct (str_split " " s) as [|x l]; [congruence|].
    change (removelast (EmptyString :: x :: l))
      with (EmptyString :: removelast (x :: l)).
    now rewrite str_join_leading_empty.
  - now rewrite Type_is_struct_init, Hsplit.
  - reflexivity.
  - now rewrite !Type_is_pointer_init, Hlast.
  - now rewrite !Type_is_pointer_pointer_init, Hlast.
Qed.

(** ** The derived names *)

Lemma append_length (a b : string) :
  String.length (a ++ b) = (String.length a + String.length b)%nat.
Proof.
  induction a as [|c a IH]; [reflexivity|]. cbn. now rewrite IH.
Qed.

Lemma append_cancel_l (a x y : string) : a ++ x = a ++ y -> x = y.
Proof.
  induction a as [|c a IH]; cbn; [trivial|].
  intros H. injection H as H. now apply IH.
Qed.

Lemma append_cancel_r (x y b : string) : x ++ b = y ++ b -> x = y.
Proof.
  revert y. induction x as [|c x IH]; intros [|d y] H.
  - reflexivity.
  - apply (f_equal String.length) in H.
    cbn in H. rewrite append_length in H. lia.
  - apply (f_equal String.length) in H.
    cbn in H. rewrite append_length in H. lia.
  - cbn in H. injection H as -> H. f_equal. now apply IH.
Qed.

(** Two prototypes get the same record type name, and the same host
    function name, exactly when they have the same function name; they get
    the same port name exactly when their function names agree once put in
    upper case, so that names that differ in case only share a port name. *)
Theorem derived_names_collide_only_by_case (pt1 pt2 : FunctionPrototype.t) :
  (FunctionPrototype.get_args_struct_name pt1
   = FunctionPrototype.get_args_struct_name pt2
   <-> FunctionPrototype.function_name pt1 = FunctionPrototype.function_name pt2) /\
  (FunctionPrototype.get_uhyve_call_function_name pt1
   = FunctionPrototype.get_uhyve_call_function_name pt2
   <-> FunctionPrototype.function_name pt1 = FunctionPrototype.function_name pt2) /\
  (FunctionPrototype.get_port_name pt1 = FunctionPrototype.get_port_name pt2
   <-> str_upper (FunctionPrototype.function_name pt1)
       = str_upper (FunctionPrototype.function_name pt2)) /\
  (exists qt1 qt2,
      FunctionPrototype.init "int ibv_poll(int a)" = Ok qt1 /\
      FunctionPrototype.init "int IBV_poll(int a)" = Ok qt2 /\
      FunctionPrototype.function_name qt1 <> FunctionPrototype.function_name qt2 /\
      FunctionPrototype.get_port_name qt1 = FunctionPrototype.get_port_name qt2).
Proof.
  unfold FunctionPrototype.get_args_struct_name,
    FunctionPrototype.get_uhyve_call_function_name,
    FunctionPrototype.get_port_name.
  split; [|split; [|split]].
  - split; [|now intros ->].
    intros H. apply append_cancel_l in H. now apply append_cancel_r in H.
  - split; [|now intros ->]. apply append_cancel_l.
  - split; [|now intros ->]. apply append_cancel_l.
  - eexists. eexists. split; [reflexivity|]. split; [reflexivity|].
    split; [discriminate | reflexivity].
Qed.

(** ** The codes *)





(** ** The lines of the input *)







(** ** The host function and the dispatch cases *)

Lemma str_join_as_concat {A : Type} (g : A -> string) (sep : string)
  (d : A) (l : list A) :
  l <> [] ->
  str_join sep (map g l)
  = str_concat (map (fun x => g x ++ sep) (removelast l)) ++ g (last l d).
Proof.
  induction l as [|x l IH]; [congruence|]. intros _.
  destruct l as [|y l]; [reflexivity|].
  change (map g (x :: y :: l)) with (g x :: g y :: map g l).
  rewrite str_join_cons.
  change (g y :: map g l) with (map g (y :: l)).
  rewrite IH by discriminate.
  change (removelast (x :: y :: l)) with (x :: removelast (y :: l)).
  change (last (x :: y :: l) d) with (last (y :: l) d).
  cbn [map str_concat]. now rewrite !append_assoc.
Qed.

Lemma generate_uhyve_function_text (pt : FunctionPrototype.t) :
  generate_uhyve_function pt = Ok (host_text pt).
Proof.
  unfold generate_uhyve_function, host_text, host_body, host_signature,
    host_call_arguments, FunctionPrototype.get_num_parameters,
    FunctionPrototype.get_uhyve_call_function_name.
  destruct (FunctionPrototype.parameters pt) as [|p ps].
  - cbn [List.length Nat.ltb Nat.leb bind].
    destruct (Type_.is_void (FunctionPrototype.ret pt)); cbn [negb];
      f_equal; now rewrite !append_assoc.
  - replace (0 <? List.length (p :: ps))%nat with true by reflexivity.
    rewrite or_empty_id, slice_to_removelast.
    rewrite (fold_left_ext _
               (fun code param =>
                  code ++ (fun q => "args->" ++ FunctionParameter.name q)
                            param ++ ", "))
      by reflexivity.
    rewrite fold_left_append.
    rewrite (getitem_last p) by discriminate. cbn [bind].
    rewrite (str_join_as_concat
               (fun q => "args->" ++ FunctionParameter.name q) ", " p (p :: ps))
      by discriminate.
    destruct (Type_.is_void (FunctionPrototype.ret pt)); cbn [negb];
      f_equal; now rewrite !append_assoc.
Qed.

(** The host function is emitted without an error for every prototype,
    also one without parameters. It calls the function with [args->name]
    for every parameter, in the order of the parameter list and separated
    by a comma and a space, and stores the result in [args->ret] exactly
    when the return type is not void. With an empty parameter list the call
    is left open: neither the closing parenthesis nor the semicolon is
    written. *)
Theorem host_function_calls_in_parameter_order (pt : FunctionPrototype.t) :
  generate_uhyve_function pt
  = Ok (generate_pretty_comment (FunctionPrototype.function_name pt)
          ++ host_signature pt ++ " {" ++ LF ++ host_body pt) /\
  (forall p ps,
      host_call_arguments (p :: ps)
      = str_join ", "
          (map (fun q => "args->" ++ FunctionParameter.name q) (p :: ps))
          ++ ");" ++ LF) /\
  host_call_arguments [] = EmptyString /\
  generate_uhyve_function
    (FunctionPrototype.mk [] (Type_.init "void") "ibv_fork_init")
  = Ok (generate_pretty_comment "ibv_fork_init"
          ++ "void call_ibv_fork_init(struct kvm_run * run, uint8_t * guest_mem) {"
          ++ LF
          ++ TAB ++ "printf(" ++ DQ ++ "LOG: UHYVE - call_ibv_fork_init\n" ++ DQ
          ++ ");" ++ LF
          ++ TAB
          ++ "unsigned data = *((unsigned*) ((size_t) run + run->io.data_offset));"
          ++ LF
          ++ TAB ++ "uhyve_ibv_fork_init_t * args = (uhyve_ibv_fork_init_t *) "
          ++ "(guest_mem + data);" ++ LF ++ LF
          ++ TAB ++ "use_ib_mem_pool = true;" ++ LF
          ++ TAB ++ "ibv_fork_init("
          ++ TAB ++ "use_ib_mem_pool = false;" ++ LF ++ "}" ++ LF ++ LF ++ LF).
Proof.
  split; [apply generate_uhyve_function_text|].
  repeat split; reflexivity.
Qed.


Lemma generate_kernel_header_declarations_text
  (pts : list FunctionPrototype.t) :
  generate_kernel_header_declarations pts
  = str_concat (map FunctionPrototype.generate_function_declaration pts).
Proof.
  unfold generate_kernel_header_declarations.
  now rewrite fold_left_append.
Qed.


(** For every line, the declaration written to the guest header is the
    head of the guest function followed by a semicolon, and the declaration
    of the host function is the head of the host function followed by a
    semicolon: what is declared is what is defined. *)
Theorem declarations_match_definitions (line : string) :
  exists pt stub_rest,
    FunctionPrototype.init line = Ok pt /\
    FunctionPrototype.generate_function_declaration pt
    = kernel_signature pt ++ ";" ++ LF /\
    generate_kernel_function pt
    = Ok (kernel_signature pt ++ " {" ++ LF ++ stub_rest) /\
    FunctionPrototype.generate_uhyve_function_declaration pt
    = host_signature pt ++ ";" ++ LF /\
    generate_uhyve_function pt
    = Ok (generate_pretty_comment (FunctionPrototype.function_name pt)
            ++ host_signature pt ++ " {" ++ LF ++ host_body pt) /\
    kernel_signature pt
    = Type_.type_string (FunctionPrototype.ret pt) ++ " "
        ++ FunctionPrototype.function_name pt ++ "("
        ++ str_join ", "
             (map FunctionParameter.get_full_expression
                  (FunctionPrototype.parameters pt))
        ++ ")".
Proof.
  exists (parse_prototype line). eexists.
  split; [apply FunctionPrototype_init_total|].
  split.
  { unfold FunctionPrototype.generate_function_declaration, kernel_signature.
    now rewrite !append_assoc. }
  split.
  { rewrite generate_kernel_function_text
      by apply parsed_parameters_have_components.
    unfold stub_text, kernel_signature. rewrite !append_assoc.
    do 6 f_equal. reflexivity. }
  split.
  { unfold FunctionPrototype.generate_uhyve_function_declaration, host_signature.
    now rewrite !append_assoc. }
  split; [apply generate_uhyve_function_text | reflexivity].
Qed.

(** ** The script: what it writes *)

Section Reaches.

Context {A B : Type}.

Lemma reaches_bind (S S1 S2 : fs) (m : io A) (k : A -> io B) (a : A) (b : B) :
  reaches S m a S1 -> reaches S1 (k a) b S2 -> reaches S (io_bind m k) b S2.
Proof.
  intros Hm Hk st Hst.
  destruct (Hm st Hst) as [st1 [Hrun1 Hst1]].
  destruct (Hk st1 Hst1) as [st2 [Hrun2 Hst2]].
  exists st2. unfold io_bind. now rewrite Hrun1.
Qed.

Lemma reaches_lift (S : fs) (r : result A) (a : A) :
  r = Ok a -> reaches S (io_lift r) a S.
Proof.
  intros -> st Hst. now exists st.
Qed.

Lemma reaches_conseq (S S1 S2 : fs) (m : io A) (a : A) :
  reaches S m a S1 -> fs_eq S1 S2 -> reaches S m a S2.
Proof.
  intros Hm Heq st Hst. destruct (Hm st Hst) as [st1 [Hrun Hst1]].
  exists st1. split; [exact Hrun|].
  intros p. now rewrite Hst1.
Qed.

End Reaches.

Lemma fs_set_eq (path content : string) (st S : fs) :
  fs_eq st S -> fs_eq (fs_set path content st) (fs_set path content S).
Proof.
  intros Hst p. unfold fs_set. now rewrite Hst.
Qed.

Lemma reaches_read (S : fs) (path text : string) :
  S path = Some text -> reaches S (read_file path) text S.
Proof.
  intros Hpath st Hst. exists st. unfold read_file.
  now rewrite Hst, Hpath.
Qed.

Lemma reaches_open (S : fs) (path : string) :
  reaches S (open_w path) tt (fs_set path EmptyString S).
Proof.
  intros st Hst. exists (fs_set path EmptyString st).
  split; [reflexivity | now apply fs_set_eq].
Qed.

Lemma reaches_write (S : fs) (path content text : string) :
  S path = Some content ->
  reaches S (write path text) tt (fs_set path (content ++ text) S).
Proof.
  intros Hpath st Hst. exists (fs_set path (content ++ text) st).
  unfold write. rewrite Hst, Hpath.
  split; [reflexivity | now apply fs_set_eq].
Qed.

Lemma fs_set_same (path content : string) (S : fs) :
  fs_set path content S path = Some content.
Proof. unfold fs_set. now rewrite String.eqb_refl. Qed.

Lemma fs_set_twice (path c1 c2 : string) (S : fs) :
  fs_eq (fs_set path c2 (fs_set path c1 S)) (fs_set path c2 S).
Proof.
  intros p. unfold fs_set. now destruct (String.eqb p path).
Qed.

(** A loop whose body puts a text at the end of one file puts the texts of
    all its turns there, in order. *)
Lemma reaches_for_append {A : Type} (path : string) (g : A -> string)
  (body : A -> io unit) (l : list A) :
  (forall x, In x l ->
     forall S1 c1, S1 path = Some c1 ->
       reaches S1 (body x) tt (fs_set path (c1 ++ g x) S1)) ->
  forall S c, S path = Some c ->
    reaches S (io_for l body) tt (fs_set path (c ++ str_concat (map g l)) S).
Proof.
  induction l as [|x l IH]; intros Hbody S c Hpath.
  - cbn [io_for map str_concat]. rewrite append_nil_r.
    intros st Hst. exists st. split; [reflexivity|].
    intros p. rewrite Hst. unfold fs_set.
    destruct (String.eqb_spec p path) as [->|_]; [exact Hpath | reflexivity].
  - cbn [io_for map str_concat].
    eapply reaches_bind; [apply Hbody; [now left | exact Hpath]|].
    eapply reaches_conseq.
    + apply IH; [|apply fs_set_same].
      intros y Hy. apply Hbody. now right.
    + intros p. rewrite fs_set_twice. now rewrite append_assoc.
Qed.

Lemma reaches_for_write {A : Type} (path : string) (g : A -> string)
  (l : list A) (S : fs) (c : string) :
  S path = Some c ->
  reaches S (io_for l (fun x => write path (g x))) tt
    (fs_set path (c ++ str_concat (map g l)) S).
Proof.
  apply reaches_for_append. intros x _ S1 c1 Hc1. now apply reaches_write.
Qed.

Lemma host_turn_appends (pt : FunctionPrototype.t) (S1 : fs) (c1 : string) :
  S1 UHYVE_HOST_FCNS_GEN_PATH = Some c1 ->
  reaches S1
    (io_bind (io_lift (generate_uhyve_function pt))
       (fun code => write UHYVE_HOST_FCNS_GEN_PATH code))
    tt (fs_set UHYVE_HOST_FCNS_GEN_PATH (c1 ++ host_text pt) S1).
Proof.
  intros Hc1.
  eapply reaches_bind;
    [apply reaches_lift, generate_uhyve_function_text|].
  now apply reaches_write.
Qed.

Lemma kernel_turn_appends (pt : FunctionPrototype.t) (S1 : fs) (c1 : string) :
  has_components pt ->
  S1 KERNEL_GEN_PATH = Some c1 ->
  reaches S1
    (io_bind
       (write KERNEL_GEN_PATH
          (generate_pretty_comment (FunctionPrototype.function_name pt)))
       (fun _ =>
          io_bind
            (write KERNEL_GEN_PATH (FunctionPrototype.generate_args_struct pt))
            (fun _ =>
               io_bind (io_lift (generate_kernel_function pt))
                 (fun code =>
                    io_bind (write KERNEL_GEN_PATH code)
                            (fun _ => write KERNEL_GEN_PATH LF)))))
    tt (fs_set KERNEL_GEN_PATH (c1 ++ kernel_block pt) S1).
Proof.
  intros Hpt Hc1.
  eapply reaches_conseq.
  - eapply reaches_bind; [apply reaches_write, Hc1|].
    eapply reaches_bind; [apply reaches_write, fs_set_same|].
    eapply reaches_bind;
      [apply reaches_lift, generate_kernel_function_text, Hpt|].
    eapply reaches_bind; [apply reaches_write, fs_set_same|].
    apply reaches_write, fs_set_same.
  - intros p. unfold fs_set, kernel_block.
    destruct (String.eqb p KERNEL_GEN_PATH); [|reflexivity].
    now rewrite !append_assoc.
Qed.

(** Comparisons of the paths of the script, decided by computation. *)
Ltac decide_paths :=
  repeat match goal with
         | |- context [String.eqb ?a ?b] =>
             let v := eval vm_compute in (String.eqb a b) in
             change (String.eqb a b) with v
         end;
  cbv beta iota.

Ltac file_content := unfold fs_set; decide_paths; reflexivity.

Lemma main_reaches (st : fs) (text : string) :
  st SRC_PATH = Some text ->
  reaches st main tt
    (fs_with (generated_files (map parse_prototype (file_lines text))) st).
Proof.
  intros Hsrc.
  set (pts := map parse_prototype (file_lines text)).
  eapply reaches_conseq.
  - unfold main.
    eapply reaches_bind; [apply reaches_read, Hsrc|].
    eapply reaches_bind; [apply reaches_lift, read_prototypes_file|].
    fold pts.
    eapply reaches_bind; [apply reaches_open|].
    eapply reaches_bind; [apply reaches_write; file_content|].
    eapply reaches_bind; [apply reaches_open|].
    eapply reaches_bind; [apply reaches_write; file_content|].
    eapply reaches_bind; [apply reaches_open|].
    eapply reaches_bind; [apply reaches_write; file_content|].
    eapply reaches_bind; [apply reaches_write; file_content|].
    eapply reaches_bind; [apply reaches_for_write; file_content|].
    eapply reaches_bind; [apply reaches_write; file_content|].
    eapply reaches_bind; [apply reaches_for_write; file_content|].
    eapply reaches_bind; [apply reaches_open|].
    eapply reaches_bind.
    { apply (reaches_for_append UHYVE_HOST_FCNS_GEN_PATH host_text).
      - intros pt _ S1 c1. apply host_turn_appends.
      - file_content. }
    eapply reaches_bind; [apply reaches_open|].
    eapply reaches_bind; [apply reaches_write; file_content|].
    eapply reaches_bind; [apply reaches_open|].
    apply (reaches_for_append KERNEL_GEN_PATH kernel_block).
    + intros pt Hpt S1 c1. apply kernel_turn_appends.
      pose proof (parsed_prototypes_have_components (file_lines text)) as Hall.
      rewrite Forall_forall in Hall. now apply Hall.
    + file_content.
  - intros p. unfold fs_with, generated_files, fs_set. cbn [find fst snd].
    destruct (String.eqb p UHYVE_CASES_GEN_PATH) eqn:H1;
      [apply String.eqb_eq in H1; subst p; decide_paths; reflexivity|].
    destruct (String.eqb p INCLUDE_STDDEF_GEN_PATH) eqn:H2;
      [apply String.eqb_eq in H2; subst p; decide_paths; reflexivity|].
    destruct (String.eqb p UHYVE_IBV_HEADER_GEN_PATH) eqn:H3;
      [apply String.eqb_eq in H3; subst p; decide_paths;
       cbn [append]; now rewrite !append_assoc|].
    destruct (String.eqb p UHYVE_HOST_FCNS_GEN_PATH) eqn:H4;
      [apply String.eqb_eq in H4; subst p; decide_paths; reflexivity|].
    destruct (String.eqb p KERNEL_HEADER_GEN_PATH) eqn:H5;
      [apply String.eqb_eq in H5; subst p; decide_paths; reflexivity|].
    destruct (String.eqb p KERNEL_GEN_PATH) eqn:H6;
      [apply String.eqb_eq in H6; subst p; decide_paths; reflexivity|].
    reflexivity.
Qed.



(** Without the input file the script raises the input error at once and
    changes no file: no generated file is created or emptied. *)
Theorem main_without_source_changes_nothing (st : fs) :
  st SRC_PATH = None ->
  main st = (Raise (IOError SRC_PATH), st).
Proof.
  intros Hsrc. unfold main, io_bind at 1, read_file. now rewrite Hsrc.
Qed.

Lemma main_without_source_changes_nothing_witness :
  main (fs_set KERNEL_GEN_PATH "kept" (fun _ => None))
  = (Raise (IOError SRC_PATH), fs_set KERNEL_GEN_PATH "kept" (fun _ => None)).
Proof.
  apply (main_without_source_changes_nothing
           (fs_set KERNEL_GEN_PATH "kept" (fun _ => None))).
  reflexivity.
Defined.

(** Running the script again on the files it has left changes nothing:
    the second run ends without an exception and every file holds what it
    held after the first run. *)
Theorem main_twice_is_main_once (st : fs) (text : string) :
  st SRC_PATH = Some text ->
  exists st' st'',
    main st = (Ok tt, st') /\
    main st' = (Ok tt, st'') /\
    forall p, st'' p = st' p.
Proof.
  intros Hsrc.
  destruct (main_reaches st text Hsrc st (fun p => eq_refl)) as [st' [Hrun Hst']].
  assert (Hsrc' : st' SRC_PATH = Some text).
  { rewrite Hst'. unfold fs_with, generated_files. cbn [find fst snd].
    decide_paths. exact Hsrc. }
  destruct (main_reaches st' text Hsrc' st' (fun p => eq_refl))
    as [st'' [Hrun' Hst'']].
  exists st', st''. split; [exact Hrun|]. split; [exact Hrun'|].
  intros p. rewrite Hst''. unfold fs_with at 1.
  destruct (find _ _) eqn:Hfind.
  - rewrite Hst'. unfold fs_with. now rewrite Hfind.
  - reflexivity.
Qed.

Lemma main_twice_is_main_once_witness :
  exists st' st'',
    main (fs_set SRC_PATH ("void g(char * s)" ++ LF) (fun _ => None))
    = (Ok tt, st') /\
    main st' = (Ok tt, st'') /\
    forall p, st'' p = st' p.
Proof.
  apply (main_twice_is_main_once
           (fs_set SRC_PATH ("void g(char * s)" ++ LF) (fun _ => None))
           ("void g(char * s)" ++ LF)).
  reflexivity.
Defined.

(** ** The names shared by the artifacts *)







